(** * MaybeSecureSocketAdaptor: a shallow embedding

    Source: [src/libamqpprox/amqpprox_maybesecuresocketadaptor.h].

    The adaptor is a C++ class template over its stream, timer and context
    types.  Its member functions are embedded as computations in a small
    monad that threads the adaptor's fields, records every call made on a
    collaborator (TLS stream, raw socket, interception object, timer, log,
    completion handler) in an ordered trace, and fails on the dereference of
    a null [d_socket].  The template parameters become type classes. *)

From Stdlib Require Import ZArith List Bool Lia.
From Stdlib Require Import Strings.Byte.
Import ListNotations.
Local Open Scope Z_scope.

(** ** Machine data *)

(** [std::size_t] on the 64-bit targets the proxy is built for. *)
Definition size_t := Z.
Definition SIZE_MODULUS : Z := 2 ^ 64.
Definition to_size_t (z : Z) : size_t := z mod SIZE_MODULUS.
Definition size_add (x y : size_t) : size_t := to_size_t (x + y).

(** [int], 32 bits wide, two's complement: what a sum formed in [int] wraps
    to on the targets at hand. *)
Definition to_int (z : Z) : Z := (z + 2 ^ 31) mod 2 ^ 32 - 2 ^ 31.
Definition int_add (x y : Z) : Z := to_int (x + y).

(** [boost::system::error_code]: zero is success, [if (ec)] tests for
    non-zero. *)
Definition error_code := Z.
Definition ec_success : error_code := 0.
Definition ec_is_error (ec : error_code) : bool := negb (ec =? 0).
(** [boost::asio::error::operation_aborted] is ECANCELED. *)
Definition operation_aborted : error_code := 125.

Record endpoint := mkEndpoint { ep_address : Z; ep_port : Z }.

Inductive handshake_type := hs_client | hs_server.
Inductive shutdown_type := shutdown_receive | shutdown_send | shutdown_both.

(** Completion handlers are opaque callables supplied by the caller; only
    their identity and the arguments they are invoked with matter. *)
Definition Handler := nat.

(** Shared timer objects ([std::shared_ptr<TimerType>]) are named by a
    handle, so that aliasing between an adaptor and its callbacks is kept. *)
Definition TimerId := nat.

(** ** Closures created by the adaptor

    The lambdas of the source are defunctionalised: a constructor per lambda,
    carrying what the lambda captures by value.  Their bodies are
    [invoke_read_handler] and [invoke_timer_handler] below. *)

Inductive ReadHandler :=
| rh_caller (handler : Handler)
    (* the caller's handler, passed through unchanged *)
| rh_smallBuffer (handler : Handler).
    (* [this, handler](ec, length) {...}, lines 471-478 *)

Inductive WaitHandler :=
| wh_refresh
    (* [weakSelf, dataRateTimer](error) {...}, lines 509-522 *)
| wh_deferredRead (handler : Handler).
    (* [weakSelf, null_buffer, handler, dataRateTimer](error) {...},
       lines 417-440 *)

(** ** Calls on collaborators *)

Inductive Layer :=
| Tls        (* d_socket->op(...) *)
| Raw        (* d_socket->next_layer().op(...) *)
| Intercept. (* d_intercept.value().get().op(...) *)

Inductive Op :=
| op_setSecure (secure : bool)
| op_remote_endpoint
| op_local_endpoint
| op_close
| op_available
| op_SSL_pending
| op_async_connect (peer : endpoint) (handler : Handler)
| op_async_handshake (type : handshake_type) (handler : Handler)
| op_async_shutdown (handler : Handler)
| op_shutdown (what : shutdown_type)
| op_async_write_some (buffers : list byte) (handler : Handler)
| op_read_some (size : nat)
| op_async_read_some (size : nat) (handler : ReadHandler)
| op_async_read_some_null (handler : ReadHandler).

Inductive TimerOp :=
| t_cancel
| t_expires_at_expiry            (* expires_at(expiry()) *)
| t_expires_after (ms : Z)
| t_async_wait (handler : WaitHandler).

Inductive LogMsg :=
| log_info_alarm_hit (quota : size_t)
| log_debug_shutdown_receive (ec : error_code)
| log_debug_read_again.

Inductive Event :=
| ev_call (target : Layer) (op : Op)
| ev_timer (timer : TimerId) (op : TimerOp)
| ev_log (msg : LogMsg)
| ev_handler (handler : Handler) (ec : error_code)
    (* handler(ec) *)
| ev_handler_n (handler : Handler) (ec : error_code) (length : size_t).
    (* handler(ec, length) *)

Definition Trace := list Event.

(** ** Template parameters and absent headers as interfaces *)

(** [StreamType]: the TLS stream and, through [next_layer()], the TCP socket
    under it.  Synchronous operations return their result together with the
    error code they store in the [ec] out-parameter.  A read returns the
    bytes it stored at the front of the buffer it was given, never more than
    that buffer holds. *)
Class StreamType (St : Type) := {
  tls_read_some : St -> nat -> St * (list byte * error_code);
  tls_SSL_pending : St -> Z;
  raw_read_some : St -> nat -> St * (list byte * error_code);
  raw_available : St -> size_t * error_code;
  raw_shutdown : St -> shutdown_type -> St * error_code;
  raw_close : St -> St * error_code;
  raw_remote_endpoint : St -> endpoint * error_code;
  raw_local_endpoint : St -> endpoint * error_code;
  tls_read_some_bound :
    forall s n, (length (fst (snd (tls_read_some s n))) <= n)%nat;
  raw_read_some_bound :
    forall s n, (length (fst (snd (raw_read_some s n))) <= n)%nat
}.

(** [SocketIntercept] (amqpprox_socketintercept.h is not part of the
    sources at hand): the synchronous operations the adaptor forwards to
    it.  The asynchronous ones only appear in the trace. *)
Class SocketIntercept (Ic : Type) := {
  i_setSecure : Ic -> bool -> Ic;
  i_remote_endpoint : Ic -> endpoint * error_code;
  i_local_endpoint : Ic -> endpoint * error_code;
  i_close : Ic -> Ic * error_code;
  i_available : Ic -> size_t * error_code;
  i_read_some : Ic -> nat -> Ic * (list byte * error_code)
}.

(** [DataRateLimit] (amqpprox_dataratelimit.h is not part of the sources at
    hand): the member functions the adaptor calls, taken as an interface. *)
Class DataRateLimit (Dl : Type) := {
  setQuota : Dl -> size_t -> Dl;
  getQuota : Dl -> size_t;
  recordUsage : Dl -> size_t -> Dl;
  remainingQuota : Dl -> size_t;
  limit_onTimer : Dl -> Dl
}.

(** A read that produced [data] stores it at the front of the buffer it was
    given and leaves the rest of the buffer as it was. *)
Definition store (data buffers : list byte) : list byte :=
  data ++ skipn (length data) buffers.

(** ** The adaptor *)

Declare Scope adaptor_scope.
Delimit Scope adaptor_scope with adaptor.

Section Adaptor.

Context {St Ic Dl : Type}.
Context {stream_ops : StreamType St}.
Context {intercept_ops : SocketIntercept Ic}.
Context {limit_ops : DataRateLimit Dl}.

(** The data members of the class.  [d_ioContext] is only handed to the
    timers' constructors and is left out; [d_socket] is [None] for a null
    [unique_ptr]. *)
Record Adaptor := mkAdaptor {
  d_intercept : option Ic;
  d_socket : option St;
  d_secured : bool;
  d_handshook : bool;
  d_smallBuffer : byte;
  d_smallBufferSet : bool;
  d_dataRateLimit : Dl;
  d_dataRateAlarm : Dl;
  d_dataRateTimer : TimerId;
  d_alarmed : bool;
  d_dataRateTimerStarted : bool
}.

Definition set_intercept (a : Adaptor) (v : option Ic) : Adaptor :=
  mkAdaptor v (d_socket a) (d_secured a) (d_handshook a) (d_smallBuffer a)
    (d_smallBufferSet a) (d_dataRateLimit a) (d_dataRateAlarm a)
    (d_dataRateTimer a) (d_alarmed a) (d_dataRateTimerStarted a).
Definition set_socket (a : Adaptor) (v : option St) : Adaptor :=
  mkAdaptor (d_intercept a) v (d_secured a) (d_handshook a) (d_smallBuffer a)
    (d_smallBufferSet a) (d_dataRateLimit a) (d_dataRateAlarm a)
    (d_dataRateTimer a) (d_alarmed a) (d_dataRateTimerStarted a).
Definition set_secured (a : Adaptor) (v : bool) : Adaptor :=
  mkAdaptor (d_intercept a) (d_socket a) v (d_handshook a) (d_smallBuffer a)
    (d_smallBufferSet a) (d_dataRateLimit a) (d_dataRateAlarm a)
    (d_dataRateTimer a) (d_alarmed a) (d_dataRateTimerStarted a).
Definition set_handshook (a : Adaptor) (v : bool) : Adaptor :=
  mkAdaptor (d_intercept a) (d_socket a) (d_secured a) v (d_smallBuffer a)
    (d_smallBufferSet a) (d_dataRateLimit a) (d_dataRateAlarm a)
    (d_dataRateTimer a) (d_alarmed a) (d_dataRateTimerStarted a).
Definition set_smallBuffer (a : Adaptor) (v : byte) : Adaptor :=
  mkAdaptor (d_intercept a) (d_socket a) (d_secured a) (d_handshook a) v
    (d_smallBufferSet a) (d_dataRateLimit a) (d_dataRateAlarm a)
    (d_dataRateTimer a) (d_alarmed a) (d_dataRateTimerStarted a).
Definition set_smallBufferSet (a : Adaptor) (v : bool) : Adaptor :=
  mkAdaptor (d_intercept a) (d_socket a) (d_secured a) (d_handshook a)
    (d_smallBuffer a) v (d_dataRateLimit a) (d_dataRateAlarm a)
    (d_dataRateTimer a) (d_alarmed a) (d_dataRateTimerStarted a).
Definition set_dataRateLimit (a : Adaptor) (v : Dl) : Adaptor :=
  mkAdaptor (d_intercept a) (d_socket a) (d_secured a) (d_handshook a)
    (d_smallBuffer a) (d_smallBufferSet a) v (d_dataRateAlarm a)
    (d_dataRateTimer a) (d_alarmed a) (d_dataRateTimerStarted a).
Definition set_dataRateAlarm (a : Adaptor) (v : Dl) : Adaptor :=
  mkAdaptor (d_intercept a) (d_socket a) (d_secured a) (d_handshook a)
    (d_smallBuffer a) (d_smallBufferSet a) (d_dataRateLimit a) v
    (d_dataRateTimer a) (d_alarmed a) (d_dataRateTimerStarted a).
Definition set_alarmed (a : Adaptor) (v : bool) : Adaptor :=
  mkAdaptor (d_intercept a) (d_socket a) (d_secured a) (d_handshook a)
    (d_smallBuffer a) (d_smallBufferSet a) (d_dataRateLimit a)
    (d_dataRateAlarm a) (d_dataRateTimer a) v (d_dataRateTimerStarted a).
Definition set_dataRateTimerStarted (a : Adaptor) (v : bool) : Adaptor :=
  mkAdaptor (d_intercept a) (d_socket a) (d_secured a) (d_handshook a)
    (d_smallBuffer a) (d_smallBufferSet a) (d_dataRateLimit a)
    (d_dataRateAlarm a) (d_dataRateTimer a) (d_alarmed a) v.

(** ** The monad of member functions

    A member function maps the adaptor's fields to a result, the updated
    fields and the calls it made, or to [None] when it dereferences a null
    [d_socket] (undefined behaviour in the source). *)
Definition M (A : Type) : Type := Adaptor -> option (A * Adaptor * Trace).

Definition ret {A} (x : A) : M A := fun a => Some (x, a, []).

Definition bind {A B} (m : M A) (f : A -> M B) : M B :=
  fun a =>
    match m a with
    | None => None
    | Some (x, a1, t1) =>
        match f x a1 with
        | None => None
        | Some (y, a2, t2) => Some (y, a2, t1 ++ t2)
        end
    end.

Definition this : M Adaptor := fun a => Some (a, a, []).
Definition assign (f : Adaptor -> Adaptor) : M unit :=
  fun a => Some (tt, f a, []).
Definition emit (e : Event) : M unit := fun a => Some (tt, a, [e]).

(** A synchronous call through [d_socket]: the call is recorded and the
    stream moves on to its next state. *)
Definition on_socket {A} (target : Layer) (op : Op) (f : St -> St * A) : M A :=
  fun a =>
    match d_socket a with
    | None => None
    | Some s =>
        let (s', r) := f s in
        Some (r, set_socket a (Some s'), [ev_call target op])
    end.

(** An asynchronous call through [d_socket]: only recorded, the stream
    invokes the handler later. *)
Definition start_on_socket (target : Layer) (op : Op) : M unit :=
  on_socket target op (fun s => (s, tt)).

Definition on_timer (op : TimerOp) : M unit :=
  fun a => Some (tt, a, [ev_timer (d_dataRateTimer a) op]).

Notation "x <- m ;; k" := (bind m (fun x => k))
  (at level 61, m at next level, right associativity) : adaptor_scope.
Notation "m ;; k" := (bind m (fun _ => k))
  (at level 61, right associativity) : adaptor_scope.
Local Open Scope adaptor_scope.

(** ** Member functions *)

(** Lines 487-492. *)
Definition isSecure (a : Adaptor) : bool := d_secured a && d_handshook a.

(** Lines 526-530. *)
Definition recordReadUsage (amount : size_t) : M unit :=
  assign (fun a =>
            set_dataRateLimit a (recordUsage (d_dataRateLimit a) amount)) ;;
  assign (fun a =>
            set_dataRateAlarm a (recordUsage (d_dataRateAlarm a) amount)).

(** Lines 494-524. *)
Definition onTimer (error : error_code) : M unit :=
  if error =? operation_aborted then ret tt
  else
    assign (fun a => set_dataRateLimit a (limit_onTimer (d_dataRateLimit a))) ;;
    assign (fun a => set_dataRateAlarm a (limit_onTimer (d_dataRateAlarm a))) ;;
    assign (fun a => set_alarmed a false) ;;
    on_timer (t_expires_after 1000) ;;
    on_timer (t_async_wait wh_refresh) ;;
    assign (fun a => set_dataRateTimerStarted a true).

(** Lines 138-146. *)
Definition setSecure (secure : bool) : M unit :=
  a <- this ;;
  match d_intercept a with
  | Some i =>
      emit (ev_call Intercept (op_setSecure secure)) ;;
      assign (fun a => set_intercept a (Some (i_setSecure i secure)))
  | None => assign (fun a => set_secured a secure)
  end.

(** Lines 178-188. *)
Definition setReadRateLimit (bytesPerSecond : size_t) : M unit :=
  assign (fun a =>
            set_dataRateLimit a (setQuota (d_dataRateLimit a) bytesPerSecond)).

Definition setReadRateAlarm (bytesPerSecond : size_t) : M unit :=
  assign (fun a =>
            set_dataRateAlarm a (setQuota (d_dataRateAlarm a) bytesPerSecond)).

(** A synchronous call on the interception object. *)
Definition on_intercept {A} (i : Ic) (op : Op) (f : Ic -> Ic * A) : M A :=
  emit (ev_call Intercept op) ;;
  assign (fun a => set_intercept a (Some (fst (f i)))) ;;
  ret (snd (f i)).

(** Lines 192-208. *)
Definition remote_endpoint : M (endpoint * error_code) :=
  a <- this ;;
  match d_intercept a with
  | Some i => on_intercept i op_remote_endpoint (fun i => (i, i_remote_endpoint i))
  | None => on_socket Raw op_remote_endpoint (fun s => (s, raw_remote_endpoint s))
  end.

Definition local_endpoint : M (endpoint * error_code) :=
  a <- this ;;
  match d_intercept a with
  | Some i => on_intercept i op_local_endpoint (fun i => (i, i_local_endpoint i))
  | None => on_socket Raw op_local_endpoint (fun s => (s, raw_local_endpoint s))
  end.

(** Lines 210-218. *)
Definition close : M error_code :=
  a <- this ;;
  match d_intercept a with
  | Some i => on_intercept i op_close i_close
  | None => on_socket Raw op_close raw_close
  end.

(** Lines 225-238.  [ec] is the value the caller's error code holds on
    entry; the secured branch does not assign it.  The sum is formed in
    [int] and converted to [std::size_t] by the return. *)
Definition available (ec : error_code) : M (size_t * error_code) :=
  a <- this ;;
  match d_intercept a with
  | Some i => on_intercept i op_available (fun i => (i, i_available i))
  | None =>
      if d_secured a then
        pending <- on_socket Tls op_SSL_pending
                     (fun s => (s, tls_SSL_pending s)) ;;
        ret (to_size_t (int_add (if d_smallBufferSet a then 1 else 0) pending),
             ec)
      else on_socket Raw op_available (fun s => (s, raw_available s))
  end.

(** Lines 240-249. *)
Definition async_connect (peer_endpoint : endpoint) (handler : Handler)
  : M unit :=
  a <- this ;;
  match d_intercept a with
  | Some _ => emit (ev_call Intercept (op_async_connect peer_endpoint handler))
  | None => start_on_socket Raw (op_async_connect peer_endpoint handler)
  end.

(** Lines 251-273. *)
Definition async_handshake (type : handshake_type) (handler : Handler)
  : M unit :=
  a <- this ;;
  match d_intercept a with
  | Some _ => emit (ev_call Intercept (op_async_handshake type handler))
  | None =>
      if d_secured a then
        assign (fun a => set_handshook a true) ;;
        start_on_socket Tls (op_async_handshake type handler)
      else
        emit (ev_handler handler ec_success)
  end.

(** Lines 275-303. *)
Definition async_shutdown (handler : Handler) : M unit :=
  a <- this ;;
  match d_intercept a with
  | Some _ => emit (ev_call Intercept (op_async_shutdown handler))
  | None =>
      if d_secured a then
        ec <- on_socket Raw (op_shutdown shutdown_receive)
                (fun s => raw_shutdown s shutdown_receive) ;;
        (if ec_is_error ec
         then emit (ev_log (log_debug_shutdown_receive ec))
         else ret tt) ;;
        start_on_socket Tls (op_async_shutdown handler)
      else
        ec <- on_socket Raw (op_shutdown shutdown_both)
                (fun s => raw_shutdown s shutdown_both) ;;
        emit (ev_handler handler ec)
  end.

(** Lines 305-322. *)
Definition async_write_some (buffers : list byte) (handler : Handler)
  : M unit :=
  a <- this ;;
  match d_intercept a with
  | Some _ => emit (ev_call Intercept (op_async_write_some buffers handler))
  | None =>
      if isSecure a
      then start_on_socket Tls (op_async_write_some buffers handler)
      else start_on_socket Raw (op_async_write_some buffers handler)
  end.

(** Lines 324-366.  The result is the caller's buffer after the call, the
    returned byte count and the error code left in [ec]. *)
Definition read_some (buffers : list byte)
  : M (list byte * size_t * error_code) :=
  a <- this ;;
  match d_intercept a with
  | Some i =>
      r <- on_intercept i (op_read_some (length buffers))
             (fun i => i_read_some i (length buffers)) ;;
      ret (store (fst r) buffers, Z.of_nat (length (fst r)), snd r)
  | None =>
      if isSecure a then
        if d_smallBufferSet a && (1 <=? length buffers)%nat then
          let buffers := d_smallBuffer a :: tl buffers in
          assign (fun a => set_smallBufferSet a false) ;;
          let replacement := tl buffers in
          r <- on_socket Tls (op_read_some (length replacement))
                 (fun s => tls_read_some s (length replacement)) ;;
          let result := Z.of_nat (length (fst r)) in
          let ec := snd r in
          let buffers := d_smallBuffer a :: store (fst r) replacement in
          if ec_is_error ec && (result =? 0) then
            recordReadUsage 1 ;;
            ret (buffers, 1, ec_success)
          else
            let result := size_add 1 result in
            recordReadUsage result ;;
            ret (buffers, result, ec)
        else
          r <- on_socket Tls (op_read_some (length buffers))
                 (fun s => tls_read_some s (length buffers)) ;;
          ret (store (fst r) buffers, Z.of_nat (length (fst r)), snd r)
      else
        r <- on_socket Raw (op_read_some (length buffers))
               (fun s => raw_read_some s (length buffers)) ;;
        let result := Z.of_nat (length (fst r)) in
        recordReadUsage result ;;
        ret (store (fst r) buffers, result, snd r)
  end.

(** Lines 388-408 of [async_read_some]: the alarm threshold. *)
Definition check_alarm : M unit :=
  a <- this ;;
  if negb (d_alarmed a) && (remainingQuota (d_dataRateAlarm a) =? 0) then
    if d_dataRateTimerStarted a then
      emit (ev_log (log_info_alarm_hit (getQuota (d_dataRateAlarm a)))) ;;
      assign (fun a => set_alarmed a true)
    else
      onTimer ec_success
  else ret tt.

(** Lines 410-451 of [async_read_some]: the hard limit.  The result is
    [true] when the function returns at line 442, with the read left to the
    timer. *)
Definition check_limit (handler : Handler) : M bool :=
  a <- this ;;
  if remainingQuota (d_dataRateLimit a) =? 0 then
    if d_dataRateTimerStarted a then
      on_timer t_cancel ;;
      on_timer t_expires_at_expiry ;;
      on_timer (t_async_wait (wh_deferredRead handler)) ;;
      ret true
    else
      onTimer ec_success ;;
      ret false
  else ret false.

(** Lines 453-483 of [async_read_some]: the read itself. *)
Definition start_read (handler : Handler) : M unit :=
  a <- this ;;
  if isSecure a then
    if d_smallBufferSet a then
      emit (ev_log log_debug_read_again) ;;
      start_on_socket Tls (op_async_read_some 0 (rh_caller handler))
    else
      start_on_socket Tls (op_async_read_some 1 (rh_smallBuffer handler))
  else
    start_on_socket Raw (op_async_read_some_null (rh_caller handler)).

(** Lines 377-484, the [null_buffers] overload. *)
Definition async_read_some (handler : Handler) : M unit :=
  a <- this ;;
  match d_intercept a with
  | Some _ =>
      emit (ev_call Intercept (op_async_read_some_null (rh_caller handler)))
  | None =>
      check_alarm ;;
      returned <- check_limit handler ;;
      if returned then ret tt else start_read handler
  end.

(** ** Bodies of the closures *)

(** The stream completes an asynchronous read with [ec] after storing
    [data] in the buffer the read was started with.  For [rh_smallBuffer]
    that buffer is [d_smallBuffer], one byte wide (line 470). *)
Definition invoke_read_handler (k : ReadHandler) (ec : error_code)
    (data : list byte) : M unit :=
  let length := Z.of_nat (length data) in
  match k with
  | rh_caller handler => emit (ev_handler_n handler ec length)
  | rh_smallBuffer handler =>
      assign (fun a => set_smallBuffer a (hd (d_smallBuffer a) data)) ;;
      (if negb (length =? 0)
       then assign (fun a => set_smallBufferSet a true)
       else ret tt) ;;
      emit (ev_handler_n handler ec length)
  end.

(** The timer completes a wait with [error]; [self] is what
    [weakSelf.lock()] yields, [None] once the adaptor is gone. *)
Definition invoke_wait_handler (k : WaitHandler) (error : error_code)
    (self : option Adaptor) : option (option Adaptor * Trace) :=
  let on_self (m : M unit) :=
    match self with
    | None => Some (None, [])
    | Some a =>
        match m a with
        | None => None
        | Some (_, a', t) => Some (Some a', t)
        end
    end in
  match k with
  | wh_refresh => on_self (onTimer error)
  | wh_deferredRead handler =>
      if error =? operation_aborted then Some (self, [])
      else on_self (onTimer error ;; async_read_some handler)
  end.

(** ** Move construction and destruction *)

(** Lines 111-132.  [timer] names the timer object [make_shared] creates
    for the new adaptor.  The result is the new adaptor, the source as the
    constructor leaves it, and the calls made. *)
Definition move_construct (src : Adaptor) (timer : TimerId)
  : Adaptor * Adaptor * Trace :=
  let dst :=
    mkAdaptor (d_intercept src) (d_socket src) (d_secured src)
      (d_handshook src) (d_smallBuffer src) (d_smallBufferSet src)
      (d_dataRateLimit src) (d_dataRateAlarm src) timer false false in
  let src :=
    set_smallBufferSet
      (set_smallBuffer
         (set_handshook (set_secured (set_socket src None) false) false)
         x00)
      false in
  (dst, src, [ev_timer (d_dataRateTimer src) t_cancel]).

(** Line 134. *)
Definition destroy : M unit := on_timer t_cancel.

End Adaptor.

Arguments Adaptor : clear implicits.
Arguments M : clear implicits.

Notation "x <- m ;; k" := (bind m (fun x => k))
  (at level 61, m at next level, right associativity) : adaptor_scope.
Notation "m ;; k" := (bind m (fun _ => k))
  (at level 61, right associativity) : adaptor_scope.
Local Open Scope adaptor_scope.

(** ** The timer collaborator *)

(** [TimerType] is a template parameter, by default
    [boost::asio::steady_timer].  Its contract, as far as the adaptor relies
    on it: [async_wait] leaves a wait outstanding on the timer; [cancel] and
    both ways of setting the expiry complete every wait outstanding on that
    timer with [operation_aborted]; when the expiry is reached the waits
    complete with success.  Completions are queued and invoked one at a
    time by the reactor. *)
Record Reactor := mkReactor {
  r_waits : list (TimerId * WaitHandler);
  r_ready : list (WaitHandler * error_code);
  r_seen : Trace
}.

Definition on_timer_p (timer : TimerId) (w : TimerId * WaitHandler) : bool :=
  Nat.eqb (fst w) timer.

Definition complete_waits (timer : TimerId) (ec : error_code) (r : Reactor)
  : Reactor :=
  mkReactor
    (filter (fun w => negb (on_timer_p timer w)) (r_waits r))
    (r_ready r ++
       map (fun w => (snd w, ec)) (filter (on_timer_p timer) (r_waits r)))
    (r_seen r).

(** The effect of one recorded call on the reactor; calls that are not on a
    timer are only kept, in order. *)
Definition reactor_step (r : Reactor) (e : Event) : Reactor :=
  match e with
  | ev_timer timer (t_async_wait k) =>
      mkReactor (r_waits r ++ [(timer, k)]) (r_ready r) (r_seen r)
  | ev_timer timer _ => complete_waits timer operation_aborted r
  | _ => mkReactor (r_waits r) (r_ready r) (r_seen r ++ [e])
  end.

Definition reactor_steps (r : Reactor) (t : Trace) : Reactor :=
  fold_left reactor_step t r.

(** The timer [timer] reaches its expiry. *)
Definition reactor_expire (timer : TimerId) (r : Reactor) : Reactor :=
  complete_waits timer ec_success r.

Section World.

Context {St Ic Dl : Type}.
Context {stream_ops : StreamType St}.
Context {intercept_ops : SocketIntercept Ic}.
Context {limit_ops : DataRateLimit Dl}.

(** One adaptor held by a [shared_ptr], as [weak_from_this] asks for, and
    the reactor that serves its timer.  [w_self] is what a [weak_ptr] to the
    adaptor locks to: [None] once the adaptor is destroyed. *)
Record World := mkWorld {
  w_self : option (Adaptor St Ic Dl);
  w_reactor : Reactor
}.

(** The last owner lets go of the adaptor: the destructor runs. *)
Definition world_destroy (w : World) : option World :=
  match w_self w with
  | None => Some w
  | Some a =>
      match destroy a with
      | None => None
      | Some (_, _, t) => Some (mkWorld None (reactor_steps (w_reactor w) t))
      end
  end.

(** The adaptor is the source of a move construction.  The moved-from
    object stays alive; the new adaptor is returned beside the world. *)
Definition world_move_from (timer : TimerId) (w : World)
  : option (Adaptor St Ic Dl * World) :=
  match w_self w with
  | None => None
  | Some src =>
      let '(dst, src', t) := move_construct src timer in
      Some (dst, mkWorld (Some src') (reactor_steps (w_reactor w) t))
  end.

(** The reactor invokes the queued completions, oldest first. *)
Fixpoint invoke_all (ready : list (WaitHandler * error_code))
    (self : option (Adaptor St Ic Dl)) (r : Reactor)
  : option (option (Adaptor St Ic Dl) * Reactor) :=
  match ready with
  | [] => Some (self, r)
  | (k, error) :: ready =>
      match invoke_wait_handler k error self with
      | None => None
      | Some (self', t) => invoke_all ready self' (reactor_steps r t)
      end
  end.

Definition world_run (w : World) : option World :=
  let r := w_reactor w in
  match invoke_all (r_ready r) (w_self w)
          (mkReactor (r_waits r) [] (r_seen r)) with
  | None => None
  | Some (self, r') => Some (mkWorld self r')
  end.

End World.

Arguments World : clear implicits.

(** ** Concrete collaborators *)

(** Modelled from the spec: the Quota Tracker ([DataRateLimit], declared in
    amqpprox_dataratelimit.h, which is not among the sources).  The spec
    gives it a limit and the usage of the current window; the remaining
    quota is the limit less the usage, saturating at zero; recording usage
    increments the usage; a refresh tick resets the usage to zero. *)
Record QuotaTracker := mkQuotaTracker {
  limitPerSecond : size_t;
  usedThisWindow : size_t
}.

Definition qt_remainingQuota (q : QuotaTracker) : size_t :=
  Z.max 0 (limitPerSecond q - usedThisWindow q).

#[export] Instance QuotaTracker_limit : DataRateLimit QuotaTracker := {|
  setQuota q n := mkQuotaTracker n (usedThisWindow q);
  getQuota := limitPerSecond;
  recordUsage q n := mkQuotaTracker (limitPerSecond q)
                       (size_add (usedThisWindow q) n);
  remainingQuota := qt_remainingQuota;
  limit_onTimer q := mkQuotaTracker (limitPerSecond q) 0
|}.

(** A scripted stream for running the adaptor on concrete inputs: what the
    TLS layer and the raw socket will hand over, the error each reports once
    it has nothing left, and the answers of the other synchronous calls. *)
Record ScriptedStream := mkScripted {
  ss_tls_input : list byte;
  ss_tls_error : error_code;
  ss_raw_input : list byte;
  ss_raw_error : error_code;
  ss_pending : Z;
  ss_available : size_t;
  ss_shutdown_error : error_code
}.

Definition scripted_read (input : list byte) (error : error_code) (n : nat)
  : list byte * (list byte * error_code) :=
  let data := firstn n input in
  (skipn n input,
   (data, if (Nat.eqb (length data) 0 && negb (Nat.eqb n 0))%bool
          then error else ec_success)).

Definition ss_tls_read_some (s : ScriptedStream) (n : nat)
  : ScriptedStream * (list byte * error_code) :=
  let r := scripted_read (ss_tls_input s) (ss_tls_error s) n in
  (mkScripted (fst r) (ss_tls_error s) (ss_raw_input s) (ss_raw_error s)
     (ss_pending s) (ss_available s) (ss_shutdown_error s), snd r).

Definition ss_raw_read_some (s : ScriptedStream) (n : nat)
  : ScriptedStream * (list byte * error_code) :=
  let r := scripted_read (ss_raw_input s) (ss_raw_error s) n in
  (mkScripted (ss_tls_input s) (ss_tls_error s) (fst r) (ss_raw_error s)
     (ss_pending s) (ss_available s) (ss_shutdown_error s), snd r).

#[export] Instance ScriptedStream_stream : StreamType ScriptedStream := {|
  tls_read_some := ss_tls_read_some;
  tls_SSL_pending := ss_pending;
  raw_read_some := ss_raw_read_some;
  raw_available s := (ss_available s, ec_success);
  raw_shutdown s _ := (s, ss_shutdown_error s);
  raw_close s := (s, ec_success);
  raw_remote_endpoint _ := (mkEndpoint 0 0, ec_success);
  raw_local_endpoint _ := (mkEndpoint 0 0, ec_success);
  tls_read_some_bound s n := firstn_le_length n (ss_tls_input s);
  raw_read_some_bound s n := firstn_le_length n (ss_raw_input s)
|}.

(** Production code installs no interception object; its type is then
    immaterial. *)
#[export] Instance unit_intercept : SocketIntercept unit := {|
  i_setSecure i _ := i;
  i_remote_endpoint _ := (mkEndpoint 0 0, ec_success);
  i_local_endpoint _ := (mkEndpoint 0 0, ec_success);
  i_close i := (i, ec_success);
  i_available _ := (0, ec_success);
  i_read_some i _ := (i, ([], ec_success))
|}.

Definition TestAdaptor := Adaptor ScriptedStream unit QuotaTracker.

(** An adaptor on a scripted stream, without interception object, with both
    quotas at [limit] and nothing used. *)
Definition test_adaptor (s : ScriptedStream) (secured handshook : bool)
    (cached : option byte) (limit : size_t) : TestAdaptor :=
  mkAdaptor None (Some s) secured handshook
    (match cached with Some b => b | None => x00 end)
    (match cached with Some _ => true | None => false end)
    (mkQuotaTracker limit 0) (mkQuotaTracker limit 0) 0%nat false false.

Definition quiet_stream : ScriptedStream :=
  mkScripted [] ec_success [] ec_success 0 0 ec_success.

(** The spec's scenario: a limit of 100 bytes per second, an alarm
    threshold of 50, three reads of 40 bytes in the window, the refresh loop
    running. *)
Definition throttled_adaptor : TestAdaptor :=
  mkAdaptor None (Some quiet_stream) true true x00 false
    (mkQuotaTracker 100 120) (mkQuotaTracker 50 120) 0%nat false true.

(** The world of [throttled_adaptor] after a read was left to the timer. *)
Definition deferred_world : World ScriptedStream unit QuotaTracker :=
  mkWorld (Some throttled_adaptor)
    (mkReactor [(0%nat, wh_deferredRead 7%nat)] [] []).

(** A raw socket whose [shutdown] fails with ENOTCONN. *)
Definition unconnected_stream : ScriptedStream :=
  mkScripted [] ec_success [] ec_success 0 0 107.

(** ** Further operations of the class *)

(** *** Constructors and [socket] *)

Section Construction.

Context {St Ic Dl : Type}.

(** Lines 93-109.  [socket] is the stream [make_unique] creates, [timer]
    names the timer [make_shared] creates, and [unlimited] is a
    default-constructed [DataRateLimit], which both trackers start as. *)
Definition construct (socket : St) (secured : bool) (timer : TimerId)
    (unlimited : Dl) : Adaptor St Ic Dl :=
  mkAdaptor None (Some socket) secured false x00 false unlimited unlimited
    timer false false.

(** Lines 74-90, the constructor of the SOCKET_TESTING build: the
    interception object is installed and [d_socket] stays null. *)
Definition construct_intercepted (intercept : Ic) (secured : bool)
    (timer : TimerId) (unlimited : Dl) : Adaptor St Ic Dl :=
  mkAdaptor (Some intercept) None secured false x00 false unlimited unlimited
    timer false false.

(** Line 136: a reference to the raw layer of the stream [d_socket] points
    to.  The function does not test [d_intercept]; [None] when [d_socket]
    is null. *)
Definition socket (a : Adaptor St Ic Dl) : option St :=
  match d_socket a with
  | None => None
  | Some stream => Some stream
  end.

End Construction.

(** *** [setDefaultOptions] *)

(** The socket options the function sets, in the order it sets them. *)
Inductive SocketOption := so_non_blocking | so_no_delay | so_keep_alive.

(** What [setDefaultOptions] does to its collaborators: it forwards to the
    interception object, or sets an option to [true] on the raw socket, or
    writes a trace line about the option that failed. *)
Inductive OptionEvent :=
| oe_intercept
| oe_set (opt : SocketOption)
| oe_log_trace (opt : SocketOption) (ec : error_code).

(** The part of the raw socket [setDefaultOptions] uses:
    [non_blocking(mode, ec)] and [set_option(option, ec)]. *)
Class SocketOptions (St : Type) := {
  raw_set_option : St -> SocketOption -> bool -> St * error_code
}.

Class InterceptOptions (Ic : Type) := {
  i_setDefaultOptions : Ic -> Ic * error_code
}.

Section DefaultOptions.

Context {St Ic Dl : Type}.
Context {option_ops : SocketOptions St}.
Context {intercept_option_ops : InterceptOptions Ic}.

(** Lines 148-176.  The result is the error code left in [ec], the fields
    and the calls made; [None] when [d_socket] is null. *)
Definition setDefaultOptions (a : Adaptor St Ic Dl)
  : option (error_code * Adaptor St Ic Dl * list OptionEvent) :=
  match d_intercept a with
  | Some i =>
      let (i', ec) := i_setDefaultOptions i in
      Some (ec, set_intercept a (Some i'), [oe_intercept])
  | None =>
      match d_socket a with
      | None => None
      | Some socket =>
          let (socket, ec) := raw_set_option socket so_non_blocking true in
          if ec_is_error ec then
            Some (ec, set_socket a (Some socket),
                  [oe_set so_non_blocking; oe_log_trace so_non_blocking ec])
          else
            let (socket, ec) := raw_set_option socket so_no_delay true in
            if ec_is_error ec then
              Some (ec, set_socket a (Some socket),
                    [oe_set so_non_blocking; oe_set so_no_delay;
                     oe_log_trace so_no_delay ec])
            else
              let (socket, ec) := raw_set_option socket so_keep_alive true in
              if ec_is_error ec then
                Some (ec, set_socket a (Some socket),
                      [oe_set so_non_blocking; oe_set so_no_delay;
                       oe_set so_keep_alive; oe_log_trace so_keep_alive ec])
              else
                Some (ec, set_socket a (Some socket),
                      [oe_set so_non_blocking; oe_set so_no_delay;
                       oe_set so_keep_alive])
      end
  end.

End DefaultOptions.

(** A raw socket that answers each option with a scripted error code. *)
Record OptionScript := mkOptionScript {
  os_non_blocking : error_code;
  os_no_delay : error_code;
  os_keep_alive : error_code
}.

#[export] Instance OptionScript_options : SocketOptions OptionScript := {|
  raw_set_option s opt _ :=
    (s, match opt with
        | so_non_blocking => os_non_blocking s
        | so_no_delay => os_no_delay s
        | so_keep_alive => os_keep_alive s
        end)
|}.

(** A scripted stream accepts every option. *)
#[export] Instance ScriptedStream_options : SocketOptions ScriptedStream := {|
  raw_set_option s _ _ := (s, ec_success)
|}.

#[export] Instance unit_intercept_options : InterceptOptions unit := {|
  i_setDefaultOptions i := (i, ec_success)
|}.

(** ** Vocabulary of the properties *)

(** The layers on which a trace makes calls, in order. *)
Definition call_targets (t : Trace) : list Layer :=
  flat_map (fun e => match e with ev_call target _ => [target] | _ => [] end)
    t.

Definition is_alarm_log (e : Event) : bool :=
  match e with ev_log (log_info_alarm_hit _) => true | _ => false end.

Definition is_read_start (e : Event) : bool :=
  match e with
  | ev_call _ (op_async_read_some _ _) => true
  | ev_call _ (op_async_read_some_null _) => true
  | _ => false
  end.

Definition is_deferral (e : Event) : bool :=
  match e with
  | ev_timer _ (t_async_wait (wh_deferredRead _)) => true
  | _ => false
  end.

Section Vocabulary.

Context {St Ic Dl : Type}.
Context {limit_ops : DataRateLimit Dl}.

Implicit Types a : Adaptor St Ic Dl.

(** What [recordReadUsage amount] leaves in the two trackers. *)
Definition usage_recorded (amount : size_t) a a' : Prop :=
  d_dataRateLimit a' = recordUsage (d_dataRateLimit a) amount /\
  d_dataRateAlarm a' = recordUsage (d_dataRateAlarm a) amount.

(** The state in which the byte [b] waits in the cache of a secure,
    handshook adaptor. *)
Definition holds_byte (b : byte) a : Prop :=
  d_intercept a = None /\ (exists s, d_socket a = Some s) /\
  isSecure a = true /\ d_smallBufferSet a = true /\ d_smallBuffer a = b.

(** The fields after [recordReadUsage amount]. *)
Definition recorded (amount : size_t) a : Adaptor St Ic Dl :=
  set_dataRateAlarm
    (set_dataRateLimit a (recordUsage (d_dataRateLimit a) amount))
    (recordUsage (d_dataRateAlarm a) amount).

(** The fields after one refresh tick, [onTimer] with a success code. *)
Definition ticked a : Adaptor St Ic Dl :=
  set_dataRateTimerStarted
    (set_alarmed
       (set_dataRateAlarm
          (set_dataRateLimit a (limit_onTimer (d_dataRateLimit a)))
          (limit_onTimer (d_dataRateAlarm a)))
       false)
    true.

(** The calls one refresh tick makes on the adaptor's timer. *)
Definition tick_trace a : Trace :=
  [ev_timer (d_dataRateTimer a) (t_expires_after 1000);
   ev_timer (d_dataRateTimer a) (t_async_wait wh_refresh)].

(** The calls that leave a read to the timer, lines 412-440. *)
Definition deferral_trace a (handler : Handler) : Trace :=
  [ev_timer (d_dataRateTimer a) t_cancel;
   ev_timer (d_dataRateTimer a) t_expires_at_expiry;
   ev_timer (d_dataRateTimer a) (t_async_wait (wh_deferredRead handler))].

(** The calls that start the read itself, lines 453-483. *)
Definition read_trace a (handler : Handler) : Trace :=
  if isSecure a then
    if d_smallBufferSet a
    then [ev_log log_debug_read_again;
          ev_call Tls (op_async_read_some 0 (rh_caller handler))]
    else [ev_call Tls (op_async_read_some 1 (rh_smallBuffer handler))]
  else [ev_call Raw (op_async_read_some_null (rh_caller handler))].

End Vocabulary.

(** Everything that can happen to an adaptor: a call of a public member
    function, or the completion of an operation it started, which runs one
    of its closures. *)
Inductive Action :=
| act_setSecure (secure : bool)
| act_setReadRateLimit (bytesPerSecond : size_t)
| act_setReadRateAlarm (bytesPerSecond : size_t)
| act_remote_endpoint
| act_local_endpoint
| act_close
| act_available (ec : error_code)
| act_async_connect (peer : endpoint) (handler : Handler)
| act_async_handshake (type : handshake_type) (handler : Handler)
| act_async_shutdown (handler : Handler)
| act_async_write_some (buffers : list byte) (handler : Handler)
| act_read_some (buffers : list byte)
| act_async_read_some (handler : Handler)
| act_read_completes (k : ReadHandler) (ec : error_code) (data : list byte)
| act_wait_completes (k : WaitHandler) (error : error_code).

Section Actions.

Context {St Ic Dl : Type}.
Context {stream_ops : StreamType St}.
Context {intercept_ops : SocketIntercept Ic}.
Context {limit_ops : DataRateLimit Dl}.

Definition forget {A} (m : M St Ic Dl A) : M St Ic Dl unit :=
  _ <- m ;; ret tt.

Definition perform (act : Action) : M St Ic Dl unit :=
  match act with
  | act_setSecure secure => setSecure secure
  | act_setReadRateLimit n => setReadRateLimit n
  | act_setReadRateAlarm n => setReadRateAlarm n
  | act_remote_endpoint => forget remote_endpoint
  | act_local_endpoint => forget local_endpoint
  | act_close => forget close
  | act_available ec => forget (available ec)
  | act_async_connect peer handler => async_connect peer handler
  | act_async_handshake type handler => async_handshake type handler
  | act_async_shutdown handler => async_shutdown handler
  | act_async_write_some buffers handler => async_write_some buffers handler
  | act_read_some buffers => forget (read_some buffers)
  | act_async_read_some handler => async_read_some handler
  | act_read_completes k ec data => invoke_read_handler k ec data
  | act_wait_completes k error =>
      fun a =>
        match invoke_wait_handler k error (Some a) with
        | Some (Some a', t) => Some (tt, a', t)
        | _ => None
        end
  end.

Fixpoint perform_all (acts : list Action) : M St Ic Dl unit :=
  match acts with
  | [] => ret tt
  | act :: acts => perform act ;; perform_all acts
  end.

End Actions.

(** The same with [setDefaultOptions], whose calls are of another kind. *)
Inductive Call :=
| call_action (act : Action)
| call_setDefaultOptions.

Section Calls.

Context {St Ic Dl : Type}.
Context {stream_ops : StreamType St}.
Context {intercept_ops : SocketIntercept Ic}.
Context {limit_ops : DataRateLimit Dl}.
Context {option_ops : SocketOptions St}.
Context {intercept_option_ops : InterceptOptions Ic}.

(** One call, with the fields it leaves and the calls it makes on the
    collaborators; [None] when it dereferences a null [d_socket]. *)
Definition call (c : Call) (a : Adaptor St Ic Dl)
  : option (Adaptor St Ic Dl * list (Event + OptionEvent)) :=
  match c with
  | call_action act =>
      match perform act a with
      | Some (_, a', t) => Some (a', map inl t)
      | None => None
      end
  | call_setDefaultOptions =>
      match setDefaultOptions a with
      | Some (_, a', t) => Some (a', map inr t)
      | None => None
      end
  end.

Fixpoint call_all (calls : list Call) (a : Adaptor St Ic Dl)
  : option (Adaptor St Ic Dl * list (Event + OptionEvent)) :=
  match calls with
  | [] => Some (a, [])
  | c :: calls =>
      match call c a with
      | None => None
      | Some (a1, t1) =>
          match call_all calls a1 with
          | None => None
          | Some (a2, t2) => Some (a2, t1 ++ t2)
          end
      end
  end.

End Calls.

(** The actions that are neither a read into a buffer with room, nor the
    completion of the internal one-byte read, nor a [setSecure(false)]. *)
Definition between_reads (act : Action) : bool :=
  match act with
  | act_setSecure secure => secure
  | act_read_some buffers => Nat.eqb (length buffers) 0
  | act_read_completes (rh_smallBuffer _) _ _ => false
  | _ => true
  end.

(** * Properties *)

(** ** Constructor, destructor, [socket] and [setDefaultOptions] *)

Definition is_option_forward (e : OptionEvent) : bool :=
  match e with oe_intercept => true | _ => false end.

Section OtherMembers.

Context {St Ic Dl : Type}.
Context {stream_ops : StreamType St}.
Context {intercept_ops : SocketIntercept Ic}.
Context {limit_ops : DataRateLimit Dl}.
Context {option_ops : SocketOptions St}.
Context {intercept_option_ops : InterceptOptions Ic}.

Implicit Types a src : Adaptor St Ic Dl.

Lemma destroy_run a :
  destroy a = Some (tt, a, [ev_timer (d_dataRateTimer a) t_cancel]).
Proof. reflexivity. Qed.

Lemma move_construct_run src timer :
  move_construct src timer =
    (mkAdaptor (d_intercept src) (d_socket src) (d_secured src)
       (d_handshook src) (d_smallBuffer src) (d_smallBufferSet src)
       (d_dataRateLimit src) (d_dataRateAlarm src) timer false false,
     mkAdaptor (d_intercept src) None false false x00 false
       (d_dataRateLimit src) (d_dataRateAlarm src) (d_dataRateTimer src)
       (d_alarmed src) (d_dataRateTimerStarted src),
     [ev_timer (d_dataRateTimer src) t_cancel]).
Proof. reflexivity. Qed.

(** [setDefaultOptions] either forwards to the interception object and
    changes nothing but that object, or works on the socket and changes
    nothing but the socket, which stays set. *)
Lemma setDefaultOptions_fields a ec a' t :
  setDefaultOptions a = Some (ec, a', t) ->
  (exists i i',
     d_intercept a = Some i /\ a' = set_intercept a (Some i') /\
     t = [oe_intercept]) \/
  (exists s s',
     d_intercept a = None /\ d_socket a = Some s /\
     a' = set_socket a (Some s') /\
     existsb is_option_forward t = false).
Proof.
  unfold setDefaultOptions. intros Hrun.
  destruct (d_intercept a) as [i|] eqn:Hi.
  - destruct (i_setDefaultOptions i) as [i' ec0].
    inversion Hrun; subst. left. exists i, i'. repeat split.
  - destruct (d_socket a) as [s|] eqn:Hs; [|discriminate].
    right. exists s.
    destruct (raw_set_option s so_non_blocking true) as [s1 ec1].
    destruct (ec_is_error ec1).
    { inversion Hrun; subst. exists s1. repeat split. }
    destruct (raw_set_option s1 so_no_delay true) as [s2 ec2].
    destruct (ec_is_error ec2).
    { inversion Hrun; subst. exists s2. repeat split. }
    destruct (raw_set_option s2 so_keep_alive true) as [s3 ec3].
    destruct (ec_is_error ec3);
      inversion Hrun; subst; exists s3; repeat split.
Qed.

(** [setDefaultOptions] returns unless the adaptor has neither interception
    object nor socket. *)
Lemma setDefaultOptions_returns a :
  (exists i, d_intercept a = Some i) \/ (exists s, d_socket a = Some s) ->
  exists ec a' t, setDefaultOptions a = Some (ec, a', t).
Proof.
  intros Hhas. unfold setDefaultOptions.
  destruct (d_intercept a) as [i|] eqn:Hi.
  - destruct (i_setDefaultOptions i) as [i' ec0]. eexists _, _, _.
    reflexivity.
  - destruct Hhas as [[i Hi']|[s Hs]]; [discriminate|]. rewrite Hs.
    destruct (raw_set_option s so_non_blocking true) as [s1 ec1].
    destruct (ec_is_error ec1); [eexists _, _, _; reflexivity|].
    destruct (raw_set_option s1 so_no_delay true) as [s2 ec2].
    destruct (ec_is_error ec2); [eexists _, _, _; reflexivity|].
    destruct (raw_set_option s2 so_keep_alive true) as [s3 ec3].
    destruct (ec_is_error ec3); eexists _, _, _; reflexivity.
Qed.

(** The fields [setDefaultOptions] leaves alone. *)
Lemma setDefaultOptions_keeps a ec a' t :
  setDefaultOptions a = Some (ec, a', t) ->
  d_secured a' = d_secured a /\
  d_handshook a' = d_handshook a /\
  d_smallBuffer a' = d_smallBuffer a /\
  d_smallBufferSet a' = d_smallBufferSet a /\
  d_dataRateLimit a' = d_dataRateLimit a /\
  d_dataRateAlarm a' = d_dataRateAlarm a /\
  d_dataRateTimer a' = d_dataRateTimer a /\
  d_alarmed a' = d_alarmed a /\
  d_dataRateTimerStarted a' = d_dataRateTimerStarted a /\
  (d_socket a = None <-> d_socket a' = None) /\
  (d_intercept a = None <-> d_intercept a' = None).
Proof.
  intros Hrun.
  destruct (setDefaultOptions_fields a ec a' t Hrun)
    as [(i & i' & Hi & Ha' & _)|(s & s' & Hi & Hs & Ha' & _)];
    subst a'; cbn; rewrite ?Hi, ?Hs; repeat split;
    intros; try discriminate; try assumption; try reflexivity.
Qed.

End OtherMembers.

Lemma size_add_small (x y : size_t) :
  0 <= x -> 0 <= y -> x + y < SIZE_MODULUS -> size_add x y = x + y.
Proof.
  intros Hx Hy Hlt. unfold size_add, to_size_t.
  apply Z.mod_small. lia.
Qed.

Lemma store_prefix (data buffers : list byte) :
  firstn (length data) (store data buffers) = data.
Proof.
  unfold store. rewrite firstn_app, Nat.sub_diag, firstn_all. simpl.
  apply app_nil_r.
Qed.

(** Unfolds the monad's plumbing so that a member function applied to an
    adaptor computes. *)
Ltac run_member :=
  cbv beta delta [bind ret this assign emit on_socket start_on_socket
                    on_timer on_intercept recordReadUsage] in *;
  cbn beta iota zeta in *.

Section ReadSome.

Context {St Ic Dl : Type}.
Context {stream_ops : StreamType St}.
Context {intercept_ops : SocketIntercept Ic}.
Context {limit_ops : DataRateLimit Dl}.

Implicit Types a : Adaptor St Ic Dl.

(** The cached-byte branch of [read_some], lines 334-355. *)
Lemma read_some_cached_run a s buffers :
  d_intercept a = None ->
  d_socket a = Some s ->
  isSecure a = true ->
  d_smallBufferSet a = true ->
  (1 <= length buffers)%nat ->
  Z.of_nat (length buffers) < SIZE_MODULUS ->
  let secondary := tls_read_some s (length buffers - 1) in
  let data := fst (snd secondary) in
  let ec := snd (snd secondary) in
  let suppressed := ec_is_error ec && (Z.of_nat (length data) =? 0) in
  let result := if suppressed then 1 else 1 + Z.of_nat (length data) in
  read_some buffers a =
    Some ((d_smallBuffer a :: store data (tl buffers), result,
           if suppressed then ec_success else ec),
          recorded result
            (set_socket (set_smallBufferSet a false) (Some (fst secondary))),
          [ev_call Tls (op_read_some (length buffers - 1))]).
Proof.
  intros Hi Hs Hsec Hset Hlen Hfit secondary data ec suppressed result.
  assert (Hbound : (length data <= length buffers - 1)%nat)
    by apply tls_read_some_bound.
  assert (Htl : length (tl buffers) = (length buffers - 1)%nat)
    by (destruct buffers; simpl; lia).
  unfold read_some. run_member.
  rewrite Hi, Hsec, Hset.
  rewrite (proj2 (Nat.leb_le _ _) Hlen). cbn [andb].
  cbn [d_socket set_smallBufferSet tl]. rewrite Hs, Htl.
  fold secondary.
  destruct secondary as [s' [data0 ec0]] eqn:Esec.
  cbn [fst snd] in *. subst data ec result. fold suppressed.
  destruct suppressed eqn:Esup; cbn [app].
  - reflexivity.
  - rewrite size_add_small by lia. reflexivity.
Qed.

(** The branch of [read_some] that goes straight to the TLS stream, line
    357. *)
Lemma read_some_tls_direct_run a s buffers :
  d_intercept a = None ->
  d_socket a = Some s ->
  isSecure a = true ->
  d_smallBufferSet a && (1 <=? length buffers)%nat = false ->
  let direct := tls_read_some s (length buffers) in
  read_some buffers a =
    Some ((store (fst (snd direct)) buffers,
           Z.of_nat (length (fst (snd direct))), snd (snd direct)),
          set_socket a (Some (fst direct)),
          [ev_call Tls (op_read_some (length buffers))]).
Proof.
  intros Hi Hs Hsec Hnot direct.
  unfold read_some. run_member.
  rewrite Hi, Hsec, Hnot, Hs.
  fold direct. destruct direct as [s' [data ec]]. reflexivity.
Qed.

(** C3.  A synchronous [read_some] on a secure, handshook adaptor that
    holds the workaround byte, into a buffer of at least one byte: the byte
    is stored at position 0 and the cache cleared; one secondary read on the
    TLS stream fills the buffer from position 1.  When that read reports an
    error and no bytes, the error is replaced by success and the call
    returns 1; otherwise the call returns 1 plus the secondary count with
    the secondary read's error code.  In both cases the returned count is
    what is recorded as usage in both trackers. *)
Theorem read_some_cached_byte a s buffers :
  d_intercept a = None ->
  d_socket a = Some s ->
  isSecure a = true ->
  d_smallBufferSet a = true ->
  (1 <= length buffers)%nat ->
  Z.of_nat (length buffers) < SIZE_MODULUS ->
  let secondary := tls_read_some s (length buffers - 1) in
  let data := fst (snd secondary) in
  let ec := snd (snd secondary) in
  let suppressed := ec_is_error ec && (Z.of_nat (length data) =? 0) in
  exists buffers' result ec' a',
    read_some buffers a =
      Some ((buffers', result, ec'), a',
            [ev_call Tls (op_read_some (length buffers - 1))]) /\
    buffers' = d_smallBuffer a :: store data (tl buffers) /\
    d_smallBufferSet a' = false /\
    d_socket a' = Some (fst secondary) /\
    (suppressed = true -> result = 1 /\ ec' = ec_success) /\
    (suppressed = false ->
       result = 1 + Z.of_nat (length data) /\ ec' = ec) /\
    usage_recorded result a a'.
Proof.
  intros Hi Hs Hsec Hset Hlen Hfit secondary data ec suppressed.
  pose proof (read_some_cached_run a s buffers Hi Hs Hsec Hset Hlen Hfit)
    as Hrun.
  cbn zeta in Hrun. fold secondary data ec suppressed in Hrun.
  eexists _, _, _, _. split; [exact Hrun|].
  destruct suppressed; repeat split; reflexivity || discriminate.
Qed.

(** C10.  A synchronous [read_some] on a secure, handshook adaptor that
    holds the workaround byte, into a buffer of size zero: the call is
    exactly the TLS stream's [read_some] on that buffer; the byte stays
    cached, nothing is recorded as usage. *)
Theorem read_some_empty_buffer_keeps_cached_byte a s :
  d_intercept a = None ->
  d_socket a = Some s ->
  isSecure a = true ->
  d_smallBufferSet a = true ->
  let direct := tls_read_some s 0 in
  read_some [] a =
    Some ((store (fst (snd direct)) [],
           Z.of_nat (length (fst (snd direct))), snd (snd direct)),
          set_socket a (Some (fst direct)),
          [ev_call Tls (op_read_some 0)]) /\
  d_smallBufferSet (set_socket a (Some (fst direct))) = true /\
  d_smallBuffer (set_socket a (Some (fst direct))) = d_smallBuffer a.
Proof.
  intros Hi Hs Hsec Hset direct.
  split; [|split; [exact Hset | reflexivity]].
  apply (read_some_tls_direct_run a s [] Hi Hs Hsec).
  rewrite Hset. reflexivity.
Qed.

End ReadSome.

Lemma read_some_cached_byte_witness :
  exists buffers' result ec' a',
    read_some [x00; x00; x00]
      (test_adaptor (mkScripted [x01; x02; x03] 2 [] 0 0 0 0)
         true true (Some xff) 100) =
      Some ((buffers', result, ec'), a', [ev_call Tls (op_read_some 2)]) /\
    buffers' = [xff; x01; x02] /\ result = 3 /\ d_smallBufferSet a' = false.
Proof.
  destruct (read_some_cached_byte
              (test_adaptor (mkScripted [x01; x02; x03] 2 [] 0 0 0 0)
                 true true (Some xff) 100)
              (mkScripted [x01; x02; x03] 2 [] 0 0 0 0)
              [x00; x00; x00])
    as (buffers' & result & ec' & a' & Hrun & Hbuf & Hclr & _ & _ & Hres & _);
    try reflexivity; [simpl; lia|].
  exists buffers', result, ec', a'.
  split; [exact Hrun|]. split; [exact Hbuf|].
  split; [apply Hres; reflexivity | exact Hclr].
Defined.

Lemma read_some_empty_buffer_keeps_cached_byte_witness :
  let a := test_adaptor (mkScripted [x01] 2 [] 0 0 0 0)
             true true (Some xff) 100 in
  read_some [] a = Some (([], 0, ec_success), a, [ev_call Tls (op_read_some 0)])
  /\ d_smallBufferSet a = true.
Proof.
  intros a.
  destruct (read_some_empty_buffer_keeps_cached_byte a
              (mkScripted [x01] 2 [] 0 0 0 0)
              eq_refl eq_refl eq_refl eq_refl) as (Hrun & Hset & _).
  split; [exact Hrun | exact Hset].
Defined.

(** Takes an adaptor apart into its fields and runs the member function at
    the head of the goal. *)
Ltac run_on a :=
  destruct a; cbn [d_intercept d_socket d_secured d_handshook d_smallBuffer
                     d_smallBufferSet d_dataRateLimit d_dataRateAlarm
                     d_dataRateTimer d_alarmed d_dataRateTimerStarted] in *;
  subst; run_member; cbn.

Section HandshakeShutdown.

Context {St Ic Dl : Type}.
Context {stream_ops : StreamType St}.
Context {intercept_ops : SocketIntercept Ic}.
Context {limit_ops : DataRateLimit Dl}.

Implicit Types a : Adaptor St Ic Dl.

Lemma async_handshake_run a s type handler :
  d_intercept a = None ->
  d_socket a = Some s ->
  async_handshake type handler a =
    if d_secured a
    then Some (tt, set_handshook a true,
               [ev_call Tls (op_async_handshake type handler)])
    else Some (tt, a, [ev_handler handler ec_success]).
Proof.
  intros Hi Hs. unfold async_handshake.
  destruct (d_secured a) eqn:Hsec; run_on a; reflexivity.
Qed.

Lemma async_shutdown_run a s handler :
  d_intercept a = None ->
  d_socket a = Some s ->
  async_shutdown handler a =
    if d_secured a
    then Some (tt, set_socket a (Some (fst (raw_shutdown s shutdown_receive))),
               ev_call Raw (op_shutdown shutdown_receive)
                 :: (if ec_is_error (snd (raw_shutdown s shutdown_receive))
                     then [ev_log (log_debug_shutdown_receive
                                     (snd (raw_shutdown s shutdown_receive)))]
                     else [])
                 ++ [ev_call Tls (op_async_shutdown handler)])
    else Some (tt, set_socket a (Some (fst (raw_shutdown s shutdown_both))),
               [ev_call Raw (op_shutdown shutdown_both);
                ev_handler handler (snd (raw_shutdown s shutdown_both))]).
Proof.
  intros Hi Hs. unfold async_shutdown.
  destruct (d_secured a) eqn:Hsec; run_on a.
  - destruct (raw_shutdown s shutdown_receive) as [s' ec].
    cbn [fst snd]. destruct (ec_is_error ec); reflexivity.
  - destruct (raw_shutdown s shutdown_both) as [s' ec]. reflexivity.
Qed.

(** C6.  [async_handshake] without interception object.  With [d_secured]
    set, the call itself sets [d_handshook] and hands the caller's handler
    to the TLS stream's [async_handshake]; nothing of the adaptor runs on
    completion.  With [d_secured] clear, the only thing that happens is the
    invocation of the handler with a default (success) error code. *)
Theorem async_handshake_flips_on_issue a s type handler :
  d_intercept a = None ->
  d_socket a = Some s ->
  (d_secured a = true ->
     async_handshake type handler a =
       Some (tt, set_handshook a true,
             [ev_call Tls (op_async_handshake type handler)]) /\
     d_handshook (set_handshook a true) = true) /\
  (d_secured a = false ->
     async_handshake type handler a =
       Some (tt, a, [ev_handler handler ec_success])).
Proof.
  intros Hi Hs. rewrite (async_handshake_run a s type handler Hi Hs).
  split; intros Hsec; rewrite Hsec; [split|]; reflexivity.
Qed.

(** C7, as the code has it.  [async_shutdown] without interception object.
    With [d_secured] set: the receive direction of the raw socket is shut
    down, an error of that call is logged and goes nowhere else, and the
    caller's handler is handed to the TLS stream's [async_shutdown].  With
    [d_secured] clear: both directions of the raw socket are shut down and
    the handler is invoked at once with the error code that shutdown
    stored, success or not; no asynchronous operation is started. *)
Theorem async_shutdown_passes_on_raw_result a s handler :
  d_intercept a = None ->
  d_socket a = Some s ->
  (d_secured a = true ->
     let half := raw_shutdown s shutdown_receive in
     async_shutdown handler a =
       Some (tt, set_socket a (Some (fst half)),
             ev_call Raw (op_shutdown shutdown_receive)
               :: (if ec_is_error (snd half)
                   then [ev_log (log_debug_shutdown_receive (snd half))]
                   else [])
               ++ [ev_call Tls (op_async_shutdown handler)])) /\
  (d_secured a = false ->
     let full := raw_shutdown s shutdown_both in
     async_shutdown handler a =
       Some (tt, set_socket a (Some (fst full)),
             [ev_call Raw (op_shutdown shutdown_both);
              ev_handler handler (snd full)])).
Proof.
  intros Hi Hs. rewrite (async_shutdown_run a s handler Hi Hs).
  split; intros Hsec; rewrite Hsec; reflexivity.
Qed.

End HandshakeShutdown.

Lemma async_handshake_flips_on_issue_witness :
  async_handshake hs_client 7%nat
    (test_adaptor quiet_stream true false None 100) =
    Some (tt, test_adaptor quiet_stream true true None 100,
          [ev_call Tls (op_async_handshake hs_client 7%nat)]).
Proof.
  apply (async_handshake_flips_on_issue
           (test_adaptor quiet_stream true false None 100)
           quiet_stream hs_client 7%nat); reflexivity.
Defined.

(** C7 as stated fails: on an adaptor that is not secured, whose raw socket
    refuses the shutdown, the handler is invoked with that error and not
    with a success code. *)
Lemma async_shutdown_insecure_not_always_success :
  let a := test_adaptor unconnected_stream false false None 100 in
  d_intercept a = None /\
  d_secured a = false /\
  async_shutdown 7%nat a =
    Some (tt, a, [ev_call Raw (op_shutdown shutdown_both);
                  ev_handler 7%nat 107]) /\
  107 <> ec_success.
Proof. repeat split; discriminate. Qed.

Lemma async_shutdown_passes_on_raw_result_witness :
  async_shutdown 7%nat (test_adaptor unconnected_stream true true None 100) =
    Some (tt, test_adaptor unconnected_stream true true None 100,
          [ev_call Raw (op_shutdown shutdown_receive);
           ev_log (log_debug_shutdown_receive 107);
           ev_call Tls (op_async_shutdown 7%nat)]).
Proof.
  exact (proj1 (async_shutdown_passes_on_raw_result
                  (test_adaptor unconnected_stream true true None 100)
                  unconnected_stream 7%nat eq_refl eq_refl) eq_refl).
Defined.

(** C5, the code at the diverging input.  [d_secured] is set, the handshake
    has not been issued, the raw socket holds five readable bytes and the
    TLS layer none.  [read_some] and [async_read_some] go to the raw socket
    in this state ([isSecure] is false), yet [available] asks the TLS layer
    and answers 0, where the raw socket would answer 5. *)
Theorem available_before_handshake_asks_tls_layer :
  let s := mkScripted [] ec_success [x01; x02; x03; x04; x05] ec_success
             0 5 ec_success in
  let a := test_adaptor s true false None 100 in
  d_intercept a = None /\
  isSecure a = false /\
  available ec_success a =
    Some ((0, ec_success), a, [ev_call Tls op_SSL_pending]) /\
  raw_available s = (5, ec_success) /\
  call_targets
    (match read_some [x00] a with Some (_, _, t) => t | None => [] end) =
    [Raw].
Proof. repeat split. Qed.

(** C4, the code at the diverging input.  A secure, handshook adaptor
    without cached byte reads three bytes synchronously: the call returns 3
    and leaves both trackers as they were, whereas the same read on the
    insecure path records the three bytes. *)
Theorem read_some_tls_direct_records_nothing :
  let s := mkScripted [x01; x02; x03] ec_success [x01; x02; x03] ec_success
             0 0 ec_success in
  let a := test_adaptor s true true None 100 in
  let b := test_adaptor s false false None 100 in
  (exists a',
     read_some [x00; x00; x00; x00] a =
       Some (([x01; x02; x03; x00], 3, ec_success), a',
             [ev_call Tls (op_read_some 4)]) /\
     d_dataRateLimit a' = d_dataRateLimit a /\
     d_dataRateAlarm a' = d_dataRateAlarm a /\
     usedThisWindow (d_dataRateLimit a') = 0) /\
  (exists b',
     read_some [x00; x00; x00; x00] b =
       Some (([x01; x02; x03; x00], 3, ec_success), b',
             [ev_call Raw (op_read_some 4)]) /\
     usage_recorded 3 b b' /\
     usedThisWindow (d_dataRateLimit b') = 3).
Proof.
  split; eexists; (split; [reflexivity|]); repeat split.
Qed.

Section QuotaGates.

Context {St Ic Dl : Type}.
Context {stream_ops : StreamType St}.
Context {intercept_ops : SocketIntercept Ic}.
Context {limit_ops : DataRateLimit Dl}.

Implicit Types a : Adaptor St Ic Dl.

Lemma onTimer_success_run a :
  onTimer ec_success a = Some (tt, ticked a, tick_trace a).
Proof. reflexivity. Qed.

Lemma set_socket_same a s : d_socket a = Some s -> set_socket a (Some s) = a.
Proof. intros Hs. destruct a; cbn in *; subst; reflexivity. Qed.

Lemma start_read_run a s handler :
  d_socket a = Some s ->
  start_read handler a = Some (tt, a, read_trace a handler).
Proof.
  intros Hs. unfold start_read, read_trace. run_member.
  destruct (isSecure a); [destruct (d_smallBufferSet a)|];
    rewrite Hs, (set_socket_same a s Hs); reflexivity.
Qed.

(** The alarm step of [async_read_some] always returns; these are the
    fields and the calls it leaves. *)
Lemma check_alarm_run a :
  check_alarm a =
    Some (tt,
          (if negb (d_alarmed a) && (remainingQuota (d_dataRateAlarm a) =? 0)
           then if d_dataRateTimerStarted a
                then set_alarmed a true else ticked a
           else a),
          (if negb (d_alarmed a) && (remainingQuota (d_dataRateAlarm a) =? 0)
           then if d_dataRateTimerStarted a
                then [ev_log (log_info_alarm_hit
                                (getQuota (d_dataRateAlarm a)))]
                else tick_trace a
           else [])).
Proof.
  unfold check_alarm. run_member.
  destruct (negb (d_alarmed a) && (remainingQuota (d_dataRateAlarm a) =? 0));
    [destruct (d_dataRateTimerStarted a)|]; reflexivity.
Qed.

Lemma check_limit_run a handler :
  check_limit handler a =
    if remainingQuota (d_dataRateLimit a) =? 0
    then if d_dataRateTimerStarted a
         then Some (true, a, deferral_trace a handler)
         else Some (false, ticked a, tick_trace a)
    else Some (false, a, []).
Proof.
  unfold check_limit. run_member.
  destruct (remainingQuota (d_dataRateLimit a) =? 0);
    [destruct (d_dataRateTimerStarted a)|]; reflexivity.
Qed.

Lemma check_alarm_keeps a a1 t1 :
  check_alarm a = Some (tt, a1, t1) ->
  d_intercept a1 = d_intercept a /\ d_socket a1 = d_socket a /\
  isSecure a1 = isSecure a /\ d_smallBufferSet a1 = d_smallBufferSet a /\
  d_smallBuffer a1 = d_smallBuffer a /\
  d_dataRateTimer a1 = d_dataRateTimer a.
Proof.
  rewrite check_alarm_run. intros H; inversion H; subst; clear H.
  destruct (negb (d_alarmed a) && (remainingQuota (d_dataRateAlarm a) =? 0));
    [destruct (d_dataRateTimerStarted a)|]; repeat split.
Qed.

(** [async_read_some] as the sequence of its three parts. *)
Lemma async_read_some_run a s handler a1 t1 :
  d_intercept a = None ->
  d_socket a = Some s ->
  check_alarm a = Some (tt, a1, t1) ->
  async_read_some handler a =
    if remainingQuota (d_dataRateLimit a1) =? 0
    then if d_dataRateTimerStarted a1
         then Some (tt, a1, t1 ++ deferral_trace a1 handler)
         else Some (tt, ticked a1,
                    t1 ++ tick_trace a1 ++ read_trace a1 handler)
    else Some (tt, a1, t1 ++ read_trace a1 handler).
Proof.
  intros Hi Hs Hal.
  destruct (check_alarm_keeps a a1 t1 Hal) as (_ & Hs1 & _).
  rewrite Hs in Hs1.
  unfold async_read_some, bind at 1, this. rewrite Hi.
  unfold bind at 1. rewrite Hal.
  unfold bind at 1. rewrite check_limit_run.
  destruct (remainingQuota (d_dataRateLimit a1) =? 0);
    [destruct (d_dataRateTimerStarted a1)|].
  - unfold ret. rewrite app_nil_r. reflexivity.
  - rewrite (start_read_run (ticked a1) s handler) by exact Hs1.
    reflexivity.
  - rewrite (start_read_run a1 s handler) by exact Hs1.
    reflexivity.
Qed.

(** The two gates of [async_read_some] with [null_buffers], each on the
    fields it finds, no interception object.
    The call always returns.  Alarm step: when the alarm tracker has no
    quota left and [d_alarmed] is clear, then with the refresh loop running
    the alarm is logged and [d_alarmed] is set on return, and with the loop
    not running one refresh tick is made ([onTimer] with success: trackers
    reset, timer re-armed, loop started) and no alarm is logged.  Limit
    step, on the fields as the alarm step leaves them: when the limit
    tracker has no quota left, then with the loop running the call only
    cancels the timer, keeps its expiry and waits on it with a continuation
    for this handler, starting no read, and with the loop not running one
    refresh tick is made and the read is started without any wait being
    left for it.  The continuation, invoked without abort on a living
    adaptor, makes a tick and calls [async_read_some] with the same
    handler. *)
Theorem async_read_some_quota_gates a s handler :
  d_intercept a = None ->
  d_socket a = Some s ->
  exists a1 t1 a' t',
    check_alarm a = Some (tt, a1, t1) /\
    async_read_some handler a = Some (tt, a', t1 ++ t') /\
    (remainingQuota (d_dataRateAlarm a) = 0 ->
     d_alarmed a = false ->
       (d_dataRateTimerStarted a = true ->
          t1 = [ev_log (log_info_alarm_hit (getQuota (d_dataRateAlarm a)))] /\
          a1 = set_alarmed a true /\
          d_alarmed a' = true) /\
       (d_dataRateTimerStarted a = false ->
          t1 = tick_trace a /\
          a1 = ticked a /\
          existsb is_alarm_log (t1 ++ t') = false /\
          d_alarmed a' = false)) /\
    (remainingQuota (d_dataRateLimit a1) = 0 ->
       (d_dataRateTimerStarted a1 = true ->
          a' = a1 /\
          t' = deferral_trace a1 handler /\
          existsb is_read_start (t1 ++ t') = false) /\
       (d_dataRateTimerStarted a1 = false ->
          a' = ticked a1 /\
          t' = tick_trace a1 ++ read_trace a1 handler /\
          existsb is_read_start t' = true /\
          existsb is_deferral (t1 ++ t') = false)) /\
    (forall error (self : Adaptor St Ic Dl),
       error <> operation_aborted ->
       invoke_wait_handler (wh_deferredRead handler) error (Some self) =
         match (onTimer error ;; async_read_some handler) self with
         | Some (_, self', t) => Some (Some self', t)
         | None => None
         end).
Proof.
  intros Hi Hs.
  pose proof (check_alarm_run a) as Hal.
  pose proof (async_read_some_run a s handler _ _ Hi Hs Hal) as Hrun.
  set (a1 := if negb (d_alarmed a) && _ then _ else a) in *.
  set (t1 := if negb (d_alarmed a) && _ then _ else []) in *.
  assert (Hsec1 : isSecure a1 = isSecure a /\
                  d_smallBufferSet a1 = d_smallBufferSet a)
    by (destruct (check_alarm_keeps a a1 t1 Hal) as (_ & _ & ? & ? & _);
        split; assumption).
  assert (Ht1 : existsb is_read_start t1 = false /\
                existsb is_deferral t1 = false).
  { subst t1.
    destruct (negb (d_alarmed a) && (remainingQuota (d_dataRateAlarm a) =? 0));
      [destruct (d_dataRateTimerStarted a)|]; split; reflexivity. }
  assert (Hread : forall b : Adaptor St Ic Dl,
                     existsb is_read_start (read_trace b handler) = true
                            /\ existsb is_deferral (read_trace b handler) = false
                            /\ existsb is_alarm_log (read_trace b handler) = false).
  { intros b. unfold read_trace.
    destruct (isSecure b); [destruct (d_smallBufferSet b)|];
      repeat split. }
  exists a1, t1.
  destruct (remainingQuota (d_dataRateLimit a1) =? 0) eqn:Elim;
    [destruct (d_dataRateTimerStarted a1) eqn:Est1|].
  - (* deferred *)
    exists a1, (deferral_trace a1 handler).
    split; [exact Hal|]. split; [exact Hrun|]. split; [|split].
    + intros Hrem Halarmed. subst a1 t1.
      rewrite Hrem, Halarmed in *. cbn [negb andb Z.eqb] in *.
      split; intros Hst; rewrite Hst in *; repeat split.
    + intros _. split; intros Hst; [|discriminate].
      repeat split. rewrite existsb_app, (proj1 Ht1). reflexivity.
    + intros error self Hne. cbn [invoke_wait_handler].
      rewrite (proj2 (Z.eqb_neq _ _) Hne). reflexivity.
  - (* bootstrap tick, then the read *)
    exists (ticked a1), (tick_trace a1 ++ read_trace a1 handler).
    split; [exact Hal|]. split; [exact Hrun|]. split; [|split].
    + intros Hrem Halarmed. exfalso. subst a1.
      rewrite Hrem, Halarmed in Est1. cbn [negb andb Z.eqb] in Est1.
      destruct (d_dataRateTimerStarted a) eqn:Est;
        cbn in Est1; congruence.
    + intros _. split; intros Hst; [discriminate|].
      destruct (Hread a1) as (Hr1 & Hr2 & _).
      repeat split.
      * rewrite existsb_app, Hr1. reflexivity.
      * rewrite !existsb_app, (proj2 Ht1), Hr2. reflexivity.
    + intros error self Hne. cbn [invoke_wait_handler].
      rewrite (proj2 (Z.eqb_neq _ _) Hne). reflexivity.
  - (* quota left *)
    exists a1, (read_trace a1 handler).
    split; [exact Hal|]. split; [exact Hrun|]. split; [|split].
    + intros Hrem Halarmed. subst a1 t1.
      rewrite Hrem, Halarmed in *. cbn [negb andb Z.eqb] in *.
      destruct (Hread a) as (_ & _ & Hr3).
      split; intros Hst; rewrite Hst in *; repeat split.
      rewrite existsb_app. cbn [tick_trace existsb is_alarm_log orb].
      destruct Hsec1 as [Hsec1 Hset1].
      unfold read_trace in *. rewrite Hsec1, Hset1. exact Hr3.
    + intros Hrem. apply Z.eqb_neq in Elim. contradiction.
    + intros error self Hne. cbn [invoke_wait_handler].
      rewrite (proj2 (Z.eqb_neq _ _) Hne). reflexivity.
Qed.

(** Seen from the entry of the call: a read that finds the limit exhausted
    before the refresh loop runs is not left to the timer, as long as a
    refreshed limit tracker has quota again. *)
Lemma first_exhaustion_does_not_stall a s handler :
  d_intercept a = None ->
  d_socket a = Some s ->
  remainingQuota (d_dataRateLimit a) = 0 ->
  d_dataRateTimerStarted a = false ->
  remainingQuota (limit_onTimer (d_dataRateLimit a)) <> 0 ->
  exists a' t,
    async_read_some handler a = Some (tt, a', t) /\
    d_dataRateTimerStarted a' = true /\
    d_dataRateLimit a' = limit_onTimer (d_dataRateLimit a) /\
    existsb is_read_start t = true /\
    existsb is_deferral t = false.
Proof.
  intros Hi Hs Hrem Hst Hfresh.
  pose proof (check_alarm_run a) as Hal.
  pose proof (async_read_some_run a s handler _ _ Hi Hs Hal) as Hrun.
  assert (Hread : forall b : Adaptor St Ic Dl,
                    existsb is_read_start (read_trace b handler) = true /\
                    existsb is_deferral (read_trace b handler) = false).
  { intros b. unfold read_trace.
    destruct (isSecure b); [destruct (d_smallBufferSet b)|]; split;
      reflexivity. }
  rewrite Hst in *.
  destruct (negb (d_alarmed a) && (remainingQuota (d_dataRateAlarm a) =? 0)).
  - cbn [ticked d_dataRateLimit set_dataRateTimerStarted set_alarmed
           set_dataRateAlarm set_dataRateLimit] in Hrun.
    rewrite (proj2 (Z.eqb_neq _ _) Hfresh) in Hrun.
    destruct (Hread (ticked a)) as [Hr1 Hr2].
    eexists _, _. split; [exact Hrun|]. repeat split.
    + rewrite existsb_app, Hr1. apply orb_true_r.
    + rewrite existsb_app, Hr2. reflexivity.
  - rewrite Hrem, Hst in Hrun. cbn [Z.eqb] in Hrun.
    destruct (Hread a) as [Hr1 Hr2].
    eexists _, _. split; [exact Hrun|]. repeat split.
    + cbn [app tick_trace existsb is_read_start orb]. exact Hr1.
    + cbn [app tick_trace existsb is_deferral orb]. exact Hr2.
Qed.


End QuotaGates.




Lemma async_read_some_quota_gates_witness :
  exists a',
    async_read_some 7%nat throttled_adaptor =
      Some (tt, a',
            [ev_log (log_info_alarm_hit 50)] ++
            deferral_trace (set_alarmed throttled_adaptor true) 7%nat) /\
    d_alarmed a' = true.
Proof.
  destruct (async_read_some_quota_gates throttled_adaptor quiet_stream 7%nat
              eq_refl eq_refl)
    as (a1 & t1 & a' & t' & _ & Hrun & Halarm & Hlimit & _).
  destruct (Halarm eq_refl eq_refl) as [Hraised _].
  destruct (Hraised eq_refl) as (Ht1 & Ha1 & Hflag).
  subst a1 t1.
  destruct (Hlimit eq_refl) as [Hdeferred _].
  destruct (Hdeferred eq_refl) as (_ & Ht' & _).
  subst t'.
  exists a'. split; [exact Hrun | exact Hflag].
Defined.

Section Dispatch.

Context {St Ic Dl : Type}.
Context {stream_ops : StreamType St}.
Context {intercept_ops : SocketIntercept Ic}.
Context {limit_ops : DataRateLimit Dl}.

Implicit Types a : Adaptor St Ic Dl.

Lemma call_targets_app (t u : Trace) :
  call_targets (t ++ u) = call_targets t ++ call_targets u.
Proof. unfold call_targets. apply flat_map_app. Qed.

Lemma read_trace_targets a handler :
  call_targets (read_trace a handler) = [if isSecure a then Tls else Raw].
Proof.
  unfold read_trace.
  destruct (isSecure a); [destruct (d_smallBufferSet a)|]; reflexivity.
Qed.

Lemma read_some_targets a s buffers :
  d_intercept a = None ->
  d_socket a = Some s ->
  exists r a' t,
    read_some buffers a = Some (r, a', t) /\
    call_targets t = [if isSecure a then Tls else Raw].
Proof.
  intros Hi Hs. unfold read_some. run_member. rewrite Hi.
  destruct (isSecure a);
    [destruct (d_smallBufferSet a && (1 <=? length buffers)%nat)|].
  - cbn [d_socket set_smallBufferSet]. rewrite Hs.
    destruct (tls_read_some s _) as [s' [data ec]]. cbn [fst snd].
    destruct (ec_is_error ec && _); eexists _, _, _; split; reflexivity.
  - rewrite Hs. destruct (tls_read_some s _) as [s' [data ec]].
    eexists _, _, _; split; reflexivity.
  - rewrite Hs. destruct (raw_read_some s _) as [s' [data ec]].
    eexists _, _, _; split; reflexivity.
Qed.

Lemma async_read_some_targets a s handler :
  d_intercept a = None ->
  d_socket a = Some s ->
  exists a' t,
    async_read_some handler a = Some (tt, a', t) /\
    call_targets t =
      if existsb is_deferral t then []
      else [if isSecure a then Tls else Raw].
Proof.
  intros Hi Hs.
  pose proof (check_alarm_run a) as Hal.
  pose proof (async_read_some_run a s handler _ _ Hi Hs Hal) as Hrun.
  destruct (check_alarm_keeps a _ _ Hal) as (_ & _ & Hsec & Hset & _).
  set (a1 := if negb (d_alarmed a) && _ then _ else a) in *.
  set (t1 := if negb (d_alarmed a) && _ then _ else []) in *.
  assert (Ht1 : call_targets t1 = [] /\ existsb is_deferral t1 = false).
  { subst t1.
    destruct (negb (d_alarmed a) && (remainingQuota (d_dataRateAlarm a) =? 0));
      [destruct (d_dataRateTimerStarted a)|]; split; reflexivity. }
  assert (Hdef : existsb is_deferral (read_trace a1 handler) = false).
  { unfold read_trace.
    destruct (isSecure a1); [destruct (d_smallBufferSet a1)|]; reflexivity. }
  destruct Ht1 as [Htg Hnd].
  rewrite Hrun.
  destruct (remainingQuota (d_dataRateLimit a1) =? 0);
    [destruct (d_dataRateTimerStarted a1)|];
    eexists _, _; (split; [reflexivity|]);
    rewrite ?call_targets_app, ?existsb_app, ?Htg, ?Hnd, ?Hdef,
      ?read_trace_targets, ?Hsec; reflexivity.
Qed.

(** C8, as the code has it.  Without interception object:
    [async_handshake] and [async_shutdown] choose by [d_secured] alone;
    [read_some], [async_read_some] (when it starts a read) and
    [async_write_some] act on the TLS stream when [isSecure()], that is
    [d_secured && d_handshook], and on the raw socket otherwise;
    [remote_endpoint], [local_endpoint], [close] and [async_connect] act on
    the raw socket whatever the flags are. *)
Theorem dispatch_targets a s :
  d_intercept a = None ->
  d_socket a = Some s ->
  let by_isSecure := if isSecure a then Tls else Raw in
  (forall type handler,
     exists a' t,
       async_handshake type handler a = Some (tt, a', t) /\
       call_targets t = if d_secured a then [Tls] else []) /\
  (forall handler,
     exists a' t,
       async_shutdown handler a = Some (tt, a', t) /\
       call_targets t = if d_secured a then [Raw; Tls] else [Raw]) /\
  (forall buffers,
     exists r a' t,
       read_some buffers a = Some (r, a', t) /\
       call_targets t = [by_isSecure]) /\
  (forall handler,
     exists a' t,
       async_read_some handler a = Some (tt, a', t) /\
       call_targets t =
         if existsb is_deferral t then [] else [by_isSecure]) /\
  (forall buffers handler,
     async_write_some buffers handler a =
       Some (tt, a,
             [ev_call by_isSecure (op_async_write_some buffers handler)])) /\
  (exists r, remote_endpoint a = Some (r, a, [ev_call Raw op_remote_endpoint]))
  /\
  (exists r, local_endpoint a = Some (r, a, [ev_call Raw op_local_endpoint]))
  /\
  (exists r a', close a = Some (r, a', [ev_call Raw op_close])) /\
  (forall peer handler,
     async_connect peer handler a =
       Some (tt, a, [ev_call Raw (op_async_connect peer handler)])).
Proof.
  intros Hi Hs by_isSecure.
  split; [|split; [|split; [|split; [|split; [|split; [|split; [|split]]]]]]].
  - intros type handler.
    rewrite (async_handshake_run a s type handler Hi Hs).
    destruct (d_secured a); eexists _, _; split; reflexivity.
  - intros handler.
    rewrite (async_shutdown_run a s handler Hi Hs).
    destruct (d_secured a); eexists _, _; (split; [reflexivity|]).
    + destruct (ec_is_error _); reflexivity.
    + reflexivity.
  - intros buffers. apply (read_some_targets a s buffers Hi Hs).
  - intros handler. apply (async_read_some_targets a s handler Hi Hs).
  - intros buffers handler. subst by_isSecure.
    unfold async_write_some. run_member. rewrite Hi.
    destruct (isSecure a); rewrite Hs, (set_socket_same a s Hs); reflexivity.
  - unfold remote_endpoint. run_member. rewrite Hi, Hs.
    rewrite (set_socket_same a s Hs). eexists; reflexivity.
  - unfold local_endpoint. run_member. rewrite Hi, Hs.
    rewrite (set_socket_same a s Hs). eexists; reflexivity.
  - unfold close. run_member. rewrite Hi, Hs.
    destruct (raw_close s). eexists _, _; reflexivity.
  - intros peer handler. unfold async_connect. run_member. rewrite Hi, Hs.
    rewrite (set_socket_same a s Hs). reflexivity.
Qed.

End Dispatch.

(** C8 as stated fails: on a secure, handshook adaptor [close] and the
    endpoint queries do not go to the TLS stream; they act on the raw
    socket. *)
Lemma close_and_endpoints_ignore_isSecure :
  let a := test_adaptor quiet_stream true true None 100 in
  d_intercept a = None /\
  isSecure a = true /\
  close a = Some (ec_success, a, [ev_call Raw op_close]) /\
  remote_endpoint a =
    Some ((mkEndpoint 0 0, ec_success), a, [ev_call Raw op_remote_endpoint]) /\
  local_endpoint a =
    Some ((mkEndpoint 0 0, ec_success), a, [ev_call Raw op_local_endpoint]) /\
  Raw <> Tls.
Proof. repeat split; discriminate. Qed.

Lemma dispatch_targets_witness :
  async_write_some [x01] 7%nat (test_adaptor quiet_stream true false None 100)
  = Some (tt, test_adaptor quiet_stream true false None 100,
          [ev_call Raw (op_async_write_some [x01] 7%nat)]).
Proof.
  destruct (dispatch_targets (test_adaptor quiet_stream true false None 100)
              quiet_stream eq_refl eq_refl)
    as (_ & _ & _ & _ & Hwrite & _).
  exact (Hwrite [x01] 7%nat).
Defined.

Section Cancellation.

Context {St Ic Dl : Type}.
Context {stream_ops : StreamType St}.
Context {intercept_ops : SocketIntercept Ic}.
Context {limit_ops : DataRateLimit Dl}.

Implicit Types a src : Adaptor St Ic Dl.
Implicit Types self : option (Adaptor St Ic Dl).
Implicit Types w : World St Ic Dl.

Lemma invoke_aborted k self :
  invoke_wait_handler k operation_aborted self = Some (self, []).
Proof. destruct k, self; reflexivity. Qed.

Lemma invoke_gone k error :
  invoke_wait_handler k error (@None (Adaptor St Ic Dl)) = Some (None, []).
Proof.
  destruct k; cbn [invoke_wait_handler]; [reflexivity|].
  destruct (error =? operation_aborted); reflexivity.
Qed.

Lemma invoke_all_gone ready r :
  invoke_all ready (@None (Adaptor St Ic Dl)) r = Some (None, r).
Proof.
  induction ready as [|[k error] ready IH]; cbn [invoke_all];
    [reflexivity|].
  rewrite invoke_gone. exact IH.
Qed.

Lemma invoke_all_aborted ready self r :
  Forall (fun c => snd c = operation_aborted) ready ->
  invoke_all ready self r = Some (self, r).
Proof.
  induction 1 as [|[k error] ready Hab _ IH]; cbn [invoke_all];
    [reflexivity|].
  cbn [snd] in Hab. subst error. rewrite invoke_aborted. exact IH.
Qed.

Lemma aborted_completions timer (waits : list (TimerId * WaitHandler)) :
  Forall (fun c : WaitHandler * error_code => snd c = operation_aborted)
    (map (fun c => (snd c, operation_aborted))
       (filter (on_timer_p timer) waits)).
Proof.
  apply Forall_forall. intros c Hin.
  apply in_map_iff in Hin. destruct Hin as (c0 & Hc & _).
  subst c. reflexivity.
Qed.

Lemma no_wait_left timer ec r :
  forall k, ~ In (timer, k) (r_waits (complete_waits timer ec r)).
Proof.
  intros k Hin. cbn [complete_waits r_waits] in Hin.
  apply filter_In in Hin. destruct Hin as [_ Hp].
  unfold on_timer_p in Hp. cbn [fst] in Hp.
  rewrite Nat.eqb_refl in Hp. discriminate.
Qed.

(** Cancellation while a wait is outstanding.  The closures the adaptor
    leaves on its timer do nothing when they
    are invoked with [operation_aborted], whatever the weak reference locks
    to, and nothing when the weak reference no longer resolves, whatever
    the error code.  The destructor cancels the timer: every wait
    outstanding on it is completed with [operation_aborted], and when the
    reactor then invokes the queued completions, the adaptor stays gone, no
    handler is invoked and no call on stream or log is made.  The move
    constructor cancels the source's timer: the waits outstanding on it are
    completed with [operation_aborted], and when they are invoked the
    moved-from adaptor keeps the fields the constructor left it with, no
    handler is invoked and no new wait is started. *)
Theorem cancelled_callbacks_are_inert :
  (forall k self,
     invoke_wait_handler k operation_aborted self = Some (self, [])) /\
  (forall k error,
     invoke_wait_handler k error (@None (Adaptor St Ic Dl)) =
       Some (None, [])) /\
  (forall w a,
     w_self w = Some a ->
     destroy a = Some (tt, a, [ev_timer (d_dataRateTimer a) t_cancel]) /\
     exists w1 w2,
       world_destroy w = Some w1 /\
       w_self w1 = None /\
       r_ready (w_reactor w1) =
         r_ready (w_reactor w) ++
         map (fun c => (snd c, operation_aborted))
           (filter (on_timer_p (d_dataRateTimer a)) (r_waits (w_reactor w)))
       /\
       (forall k, ~ In (d_dataRateTimer a, k) (r_waits (w_reactor w1))) /\
       world_run w1 = Some w2 /\
       w_self w2 = None /\
       r_seen (w_reactor w2) = r_seen (w_reactor w) /\
       r_waits (w_reactor w2) = r_waits (w_reactor w1) /\
       r_ready (w_reactor w2) = []) /\
  (forall w src timer,
     w_self w = Some src ->
     r_ready (w_reactor w) = [] ->
     exists dst src' w1 w2,
       move_construct src timer =
         (dst, src', [ev_timer (d_dataRateTimer src) t_cancel]) /\
       world_move_from timer w = Some (dst, w1) /\
       w_self w1 = Some src' /\
       r_ready (w_reactor w1) =
         map (fun c => (snd c, operation_aborted))
           (filter (on_timer_p (d_dataRateTimer src))
              (r_waits (w_reactor w))) /\
       (forall k, ~ In (d_dataRateTimer src, k) (r_waits (w_reactor w1))) /\
       world_run w1 = Some w2 /\
       w_self w2 = Some src' /\
       r_seen (w_reactor w2) = r_seen (w_reactor w) /\
       r_waits (w_reactor w2) = r_waits (w_reactor w1) /\
       r_ready (w_reactor w2) = []).
Proof.
  split; [exact invoke_aborted|]. split; [exact invoke_gone|]. split.
  - intros [self r] a Hself. cbn [w_self] in Hself. subst self.
    split; [reflexivity|].
    unfold world_destroy, world_run.
    cbn [w_self w_reactor destroy on_timer reactor_steps fold_left
           reactor_step].
    eexists _, _. split; [reflexivity|].
    cbn [w_self w_reactor]. rewrite invoke_all_gone.
    repeat split. apply no_wait_left.
  - intros [self r] src timer Hself Hready.
    cbn [w_self w_reactor] in *. subst self.
    unfold world_move_from, world_run, move_construct.
    cbn [w_self w_reactor reactor_steps fold_left reactor_step].
    eexists _, _, _, _. split; [reflexivity|]. split; [reflexivity|].
    cbn [w_self w_reactor complete_waits r_ready r_waits r_seen].
    rewrite Hready. cbn [app].
    rewrite invoke_all_aborted by apply aborted_completions.
    repeat split.
    intros k Hin. apply filter_In in Hin. destruct Hin as [_ Hp].
    unfold on_timer_p in Hp. cbn in Hp.
    rewrite Nat.eqb_refl in Hp. discriminate.
Qed.

End Cancellation.

Lemma cancelled_callbacks_are_inert_witness :
  exists w1,
    world_destroy deferred_world = Some w1 /\
    r_ready (w_reactor w1) = [(wh_deferredRead 7%nat, operation_aborted)] /\
    world_run w1 = Some (mkWorld None (mkReactor [] [] [])).
Proof.
  destruct (cancelled_callbacks_are_inert
              (St := ScriptedStream) (Ic := unit) (Dl := QuotaTracker))
    as (_ & _ & Hdestroy & _).
  destruct (Hdestroy deferred_world throttled_adaptor eq_refl)
    as (_ & w1 & w2 & Hd & _ & Hready & _ & Hrun & _).
  exists w1. split; [exact Hd|]. split; [exact Hready|].
  inversion Hd; subst w1. reflexivity.
Defined.

(** Splits on every test a hypothesis still branches on. *)
Ltac split_tests H :=
  repeat (cbn in H;
          match type of H with
          | context [match ?c with _ => _ end] =>
              lazymatch c with
              | context [match _ with _ => _ end] => fail
              | _ => destruct c eqn:?
              end
          end).

Section SmallBuffer.

Context {St Ic Dl : Type}.
Context {stream_ops : StreamType St}.
Context {intercept_ops : SocketIntercept Ic}.
Context {limit_ops : DataRateLimit Dl}.
Context {option_ops : SocketOptions St}.
Context {intercept_option_ops : InterceptOptions Ic}.

Implicit Types a : Adaptor St Ic Dl.

(** No member function and no closure sets [d_smallBufferSet], but for the
    closure of the internal one-byte read when it is given a non-zero
    length. *)
Lemma flag_raised_only_by_completion act a a' t :
  perform act a = Some (tt, a', t) ->
  d_smallBufferSet a = false ->
  d_smallBufferSet a' = true ->
  exists handler ec data,
    act = act_read_completes (rh_smallBuffer handler) ec data /\
    Z.of_nat (length data) <> 0.
Proof.
  intros Hrun Hclear Hset.
  destruct act; cbn [perform] in Hrun;
    try (unfold forget, setSecure, setReadRateLimit, setReadRateAlarm,
           remote_endpoint, local_endpoint, close, available, async_connect,
           async_handshake, async_shutdown, async_write_some, read_some,
           async_read_some, check_alarm, check_limit, start_read, onTimer
           in Hrun;
         run_on a; split_tests Hrun;
         try discriminate; inversion Hrun; subst; cbn in Hset;
         discriminate).
  - (* a read completes *)
    destruct k as [handler|handler];
      unfold invoke_read_handler in Hrun; run_on a.
    + inversion Hrun; subst. discriminate.
    + exists handler, ec, data. split; [reflexivity|].
      destruct (Z.of_nat (length data) =? 0) eqn:E.
      * cbn in Hrun. inversion Hrun; subst. discriminate.
      * apply Z.eqb_neq. exact E.
  - (* a wait completes *)
    unfold invoke_wait_handler, async_read_some, check_alarm, check_limit,
      start_read, onTimer in Hrun.
    destruct k; run_on a; split_tests Hrun;
      try discriminate; inversion Hrun; subst; cbn in Hset; discriminate.
Qed.

(** A read that started the internal one-byte read leaves the adaptor
    secure, handshook and without cached byte. *)
Lemma one_byte_read_started a s handler a' t :
  d_intercept a = None ->
  d_socket a = Some s ->
  async_read_some handler a = Some (tt, a', t) ->
  In (ev_call Tls (op_async_read_some 1 (rh_smallBuffer handler))) t ->
  d_intercept a' = None /\ d_socket a' = Some s /\
  isSecure a' = true /\ d_smallBufferSet a' = false.
Proof.
  intros Hi Hs Hrun Hin.
  pose proof (check_alarm_run a) as Hal.
  rewrite (async_read_some_run a s handler _ _ Hi Hs Hal) in Hrun.
  destruct (check_alarm_keeps a _ _ Hal) as (Hi1 & Hs1 & _).
  set (a1 := if negb (d_alarmed a) && _ then _ else a) in *.
  set (t1 := if negb (d_alarmed a) && _ then _ else []) in *.
  rewrite Hi in Hi1. rewrite Hs in Hs1.
  assert (Ht1 : ~ In (ev_call Tls (op_async_read_some 1
                                     (rh_smallBuffer handler))) t1).
  { subst t1.
    destruct (negb (d_alarmed a) && (remainingQuota (d_dataRateAlarm a) =? 0));
      [destruct (d_dataRateTimerStarted a)|]; cbn; intuition discriminate. }
  assert (Hread : In (ev_call Tls (op_async_read_some 1
                                     (rh_smallBuffer handler)))
                    (read_trace a1 handler) ->
                  isSecure a1 = true /\ d_smallBufferSet a1 = false).
  { unfold read_trace.
    destruct (isSecure a1); [destruct (d_smallBufferSet a1)|]; cbn;
      intuition discriminate. }
  destruct (remainingQuota (d_dataRateLimit a1) =? 0);
    [destruct (d_dataRateTimerStarted a1)|];
    inversion Hrun; subst a' t; clear Hrun;
    apply in_app_or in Hin; destruct Hin as [Hin|Hin];
    try contradiction.
  - cbn in Hin. intuition discriminate.
  - cbn [tick_trace app In] in Hin.
    destruct Hin as [Hin|[Hin|Hin]]; try discriminate.
    destruct (Hread Hin) as [Hsec Hset]. repeat split; assumption.
  - destruct (Hread Hin) as [Hsec Hset]. repeat split; assumption.
Qed.

Lemma between_reads_keep_byte act b a a' t :
  between_reads act = true ->
  holds_byte b a ->
  perform act a = Some (tt, a', t) ->
  holds_byte b a'.
Proof.
  intros Hquiet (Hi & (s & Hs) & Hsec & Hset & Hb) Hrun.
  unfold holds_byte, isSecure in *.
  apply andb_prop in Hsec. destruct Hsec as [Hsecured Hhandshook].
  destruct act; cbn [perform between_reads] in *;
    try (destruct k); try discriminate;
    try (destruct buffers; [|discriminate]);
    unfold invoke_read_handler, invoke_wait_handler, forget, setSecure,
      setReadRateLimit, setReadRateAlarm, remote_endpoint, local_endpoint,
      close, available, async_connect, async_handshake, async_shutdown,
      async_write_some, read_some, async_read_some, check_alarm,
      check_limit, start_read, onTimer in Hrun;
    run_on a; split_tests Hrun;
    try discriminate; inversion Hrun; subst; cbn;
    repeat split; eauto.
Qed.

Lemma between_reads_keep_byte_all acts : forall b a a' t,
  forallb between_reads acts = true ->
  holds_byte b a ->
  perform_all acts a = Some (tt, a', t) ->
  holds_byte b a'.
Proof.
  induction acts as [|act acts IH]; intros b a a' t Hquiet Hinv Hrun.
  - cbn in Hrun. inversion Hrun; subst. exact Hinv.
  - cbn [forallb] in Hquiet. apply andb_prop in Hquiet.
    destruct Hquiet as [Hact Hacts].
    cbn [perform_all] in Hrun. unfold bind in Hrun.
    destruct (perform act a) as [[[[] a1] t1]|] eqn:Hfirst; [|discriminate].
    destruct (perform_all acts a1) as [[[[] a2] t2]|] eqn:Hrest;
      [|discriminate].
    inversion Hrun; subst.
    apply (IH b a1 a' t2 Hacts); [|exact Hrest].
    apply (between_reads_keep_byte act b a a1 t1 Hact Hinv Hfirst).
Qed.

(** The actions that are neither a read into a buffer with room nor the
    completion of an internal one-byte read. *)
Definition keeps_cache (act : Action) : bool :=
  match act with
  | act_read_some buffers => Nat.eqb (length buffers) 0
  | act_read_completes (rh_smallBuffer _) _ _ => false
  | _ => true
  end.

(** The byte [b] waits in the cache of an adaptor without interception
    object. *)
Definition caches_byte (b : byte) a : Prop :=
  d_intercept a = None /\ d_smallBufferSet a = true /\ d_smallBuffer a = b.

Lemma keeps_cache_keeps_byte act b a a' t :
  keeps_cache act = true ->
  caches_byte b a ->
  perform act a = Some (tt, a', t) ->
  caches_byte b a'.
Proof.
  intros Hquiet (Hi & Hset & Hb) Hrun. unfold caches_byte.
  destruct act; cbn [perform keeps_cache] in *;
    try (destruct k); try discriminate;
    try (destruct buffers; [|discriminate]);
    unfold invoke_read_handler, invoke_wait_handler, forget, setSecure,
      setReadRateLimit, setReadRateAlarm, remote_endpoint, local_endpoint,
      close, available, async_connect, async_handshake, async_shutdown,
      async_write_some, read_some, async_read_some, check_alarm,
      check_limit, start_read, onTimer in Hrun;
    run_on a; split_tests Hrun;
    try discriminate; inversion Hrun; subst; cbn;
    repeat split; eauto.
Qed.

(** The same for calls, [setDefaultOptions] among them. *)
Definition keeps_cache_call (c : Call) : bool :=
  match c with
  | call_action act => keeps_cache act
  | call_setDefaultOptions => true
  end.

Lemma keeps_cache_keeps_byte_all calls : forall b a a' t,
  forallb keeps_cache_call calls = true ->
  caches_byte b a ->
  call_all calls a = Some (a', t) ->
  caches_byte b a'.
Proof.
  induction calls as [|c calls IH]; intros b a a' t Hquiet Hinv Hrun.
  - cbn in Hrun. inversion Hrun; subst. exact Hinv.
  - cbn [forallb] in Hquiet. apply andb_prop in Hquiet.
    destruct Hquiet as [Hc Hcalls].
    cbn [call_all] in Hrun.
    destruct (call c a) as [[a1 t1]|] eqn:Hfirst; [|discriminate].
    destruct (call_all calls a1) as [[a2 t2]|] eqn:Hrest; [|discriminate].
    inversion Hrun; subst.
    apply (IH b a1 a' t2 Hcalls); [|exact Hrest].
    clear IH Hrest Hrun Hcalls.
    destruct c as [act|]; cbn [call keeps_cache_call] in *.
    + destruct (perform act a) as [[[[] a0] t0]|] eqn:Hact; [|discriminate].
      inversion Hfirst; subst.
      apply (keeps_cache_keeps_byte act b a a1 t0 Hc Hinv Hact).
    + destruct (setDefaultOptions a) as [[[ec a0] t0]|] eqn:Hopt;
        [|discriminate].
      inversion Hfirst; subst.
      destruct Hinv as (Hi & Hset & Hb).
      destruct (setDefaultOptions_keeps a ec a1 t0 Hopt)
        as (_ & _ & Hbyte & Hflag & _ & _ & _ & _ & _ & _ & Hnone).
      unfold caches_byte. rewrite Hbyte, Hflag.
      repeat split; try assumption. apply Hnone. exact Hi.
Qed.

(** C2, as the code has it.  (i) On a living adaptor [d_smallBufferSet]
    goes from clear to set only in the completion of the internal one-byte
    read, and only when that completion reports a non-zero length: no
    member function and no other closure raises it, [setDefaultOptions]
    and the destructor leave flag and byte as they are, and the move
    constructor hands flag and byte to the new adaptor and clears the flag
    on its source.  (ii) When the internal one-byte read of an adaptor
    without interception object completes with the byte [b], in whatever
    state the adaptor then is, the handler is invoked with length 1 and
    [b] is cached.  After any calls and completions on that adaptor that
    are neither a read into a buffer with room nor the completion of a
    further internal one-byte read ([setSecure] in either direction and
    [setDefaultOptions] among them), the next
    [read_some] with a buffer of at least one byte, when it finds the
    adaptor secure and handshook, returns one more than the TLS stream
    hands over in that call, the caller's buffer then starts with [b]
    followed by exactly the bytes the stream handed over, and the cache is
    cleared; the [read_some] after that one delivers exactly what the TLS
    stream hands over, so [b] is delivered once. *)
Theorem small_buffer_byte_delivered_once :
  (forall act a a' t,
     perform act a = Some (tt, a', t) ->
     d_smallBufferSet a = false ->
     d_smallBufferSet a' = true ->
     exists handler ec data,
       act = act_read_completes (rh_smallBuffer handler) ec data /\
       Z.of_nat (length data) <> 0) /\
  (forall (a : Adaptor St Ic Dl) ec a' t,
     setDefaultOptions a = Some (ec, a', t) ->
     d_smallBufferSet a' = d_smallBufferSet a /\
     d_smallBuffer a' = d_smallBuffer a) /\
  (forall a : Adaptor St Ic Dl,
     destroy a = Some (tt, a, [ev_timer (d_dataRateTimer a) t_cancel])) /\
  (forall (src : Adaptor St Ic Dl) timer,
     exists dst src' t,
       move_construct src timer = (dst, src', t) /\
       d_smallBufferSet dst = d_smallBufferSet src /\
       d_smallBuffer dst = d_smallBuffer src /\
       d_smallBufferSet src' = false) /\
  (forall a1 handler ec b a1' tc between a2 t2 s2 buffers,
     d_intercept a1 = None ->
     invoke_read_handler (rh_smallBuffer handler) ec [b] a1 =
       Some (tt, a1', tc) ->
     forallb keeps_cache_call between = true ->
     call_all between a1' = Some (a2, t2) ->
     d_socket a2 = Some s2 ->
     isSecure a2 = true ->
     (1 <= length buffers)%nat ->
     Z.of_nat (length buffers) < SIZE_MODULUS ->
     tc = [ev_handler_n handler ec 1] /\
     let second := tls_read_some s2 (length buffers - 1) in
     exists a3 buffers' result ec',
       read_some buffers a2 =
         Some ((buffers', result, ec'), a3,
               [ev_call Tls (op_read_some (length buffers - 1))]) /\
       result = 1 + Z.of_nat (length (fst (snd second))) /\
       firstn (Z.to_nat result) buffers' = b :: fst (snd second) /\
       d_smallBufferSet a3 = false /\
       forall buffers2,
         let third := tls_read_some (fst second) (length buffers2) in
         read_some buffers2 a3 =
           Some ((store (fst (snd third)) buffers2,
                  Z.of_nat (length (fst (snd third))), snd (snd third)),
                 set_socket a3 (Some (fst third)),
                 [ev_call Tls (op_read_some (length buffers2))])).
Proof.
  split; [exact flag_raised_only_by_completion|].
  split.
  { intros a ec a' t Hrun.
    destruct (setDefaultOptions_keeps a ec a' t Hrun)
      as (_ & _ & Hbyte & Hset & _).
    split; assumption. }
  split; [exact destroy_run|].
  split.
  { intros src timer. eexists _, _, _.
    split; [apply move_construct_run|]. repeat split. }
  intros a1 handler ec b a1' tc between a2 t2 s2 buffers
    Hi Hdone Hquiet Hbetween Hs2 Hsec2 Hlen Hfit.
  cbv in Hdone. inversion Hdone; subst a1' tc; clear Hdone.
  split; [reflexivity|].
  assert (Hheld : caches_byte b
                    (set_smallBufferSet (set_smallBuffer a1 b) true))
    by (repeat split; exact Hi).
  destruct (keeps_cache_keeps_byte_all between b _ a2 t2 Hquiet Hheld Hbetween)
    as (Hi2 & Hset2 & Hb2).
  intros second.
  pose proof (read_some_cached_run a2 s2 buffers Hi2 Hs2 Hsec2 Hset2
                Hlen Hfit) as Hcached.
  cbn zeta in Hcached. fold second in Hcached.
  set (data := fst (snd second)) in *.
  set (suppressed := ec_is_error (snd (snd second)) &&
                     (Z.of_nat (length data) =? 0)) in *.
  set (result := if suppressed then 1 else 1 + Z.of_nat (length data)) in *.
  assert (Hresult : result = 1 + Z.of_nat (length data)).
  { subst result. destruct suppressed eqn:Esup; [|reflexivity].
    apply andb_prop in Esup. destruct Esup as [_ Ezero].
    apply Z.eqb_eq in Ezero. rewrite Ezero. reflexivity. }
  eexists _, _, _, _.
  split; [exact Hcached|]. split; [exact Hresult|].
  split; [|split; [reflexivity|]].
  - rewrite Hresult, Hb2.
    replace (Z.to_nat (1 + Z.of_nat (length data))) with (S (length data))
      by lia.
    cbn [firstn]. rewrite store_prefix. reflexivity.
  - intros buffers2 third.
    apply (read_some_tls_direct_run _ (fst second) buffers2);
      try assumption; reflexivity.
Qed.

End SmallBuffer.

Lemma small_buffer_byte_delivered_once_witness :
  let s := mkScripted [x01; x02; x03] 2 [] 0 0 0 0 in
  let a := test_adaptor s true true None 100 in
  let a2 := test_adaptor s true true (Some xff) 100 in
  exists a3,
    read_some [x00; x00; x00] a2 =
      Some (([xff; x01; x02], 3, ec_success), a3,
            [ev_call Tls (op_read_some 2)]) /\
    read_some [x00; x00; x00] a3 =
      Some (([x03; x00; x00], 1, ec_success),
            set_socket a3 (Some (mkScripted [] 2 [] 0 0 0 0)),
            [ev_call Tls (op_read_some 3)]).
Proof.
  intros s a a2.
  destruct (small_buffer_byte_delivered_once
              (St := ScriptedStream) (Ic := unit) (Dl := QuotaTracker))
    as (_ & _ & _ & _ & Hround).
  destruct (Hround a 7%nat ec_success xff a2
              [ev_handler_n 7%nat ec_success 1]
              [call_action (act_setSecure false);
               call_action (act_available ec_success);
               call_setDefaultOptions;
               call_action (act_setSecure true);
               call_action (act_async_read_some 8%nat)]
              a2
              [inl (ev_call Raw op_available);
               inr (oe_set so_non_blocking); inr (oe_set so_no_delay);
               inr (oe_set so_keep_alive);
               inl (ev_log log_debug_read_again);
               inl (ev_call Tls (op_async_read_some 0 (rh_caller 8%nat)))]
              s [x00; x00; x00]
              eq_refl eq_refl eq_refl eq_refl eq_refl eq_refl
              (le_S _ _ (le_S _ _ (le_n 1))) eq_refl)
    as (_ & a3 & buffers' & result & ec' & Hread & _ & _ & _ & Hnext).
  exists a3. split; [|exact (Hnext [x00; x00; x00])].
  rewrite Hread. inversion Hread. reflexivity.
Defined.

(** The spec's scenario, run through the reactor.  Limit 100, 120 bytes
    used, loop running: the fourth read is left to the timer and no read is
    started; when the timer expires the closure makes the tick and starts
    the read; the tick has reset the usage. *)
Example fourth_read_waits_for_the_tick :
  exists a1 t1 w2,
    async_read_some 7%nat throttled_adaptor = Some (tt, a1, t1) /\
    existsb is_read_start t1 = false /\
    world_run
      (mkWorld (Some a1)
         (reactor_expire 0%nat
            (reactor_steps (mkReactor [(0%nat, wh_refresh)] [] []) t1))) =
      Some w2 /\
    r_seen (w_reactor w2) =
      [ev_log (log_info_alarm_hit 50);
       ev_call Tls (op_async_read_some 1 (rh_smallBuffer 7%nat))] /\
    r_waits (w_reactor w2) = [(0%nat, wh_refresh)] /\
    option_map (fun a => usedThisWindow (d_dataRateLimit a)) (w_self w2) =
      Some 0.
Proof.
  eexists _, _, _. split; [reflexivity|]. split; [reflexivity|].
  split; [reflexivity|]. repeat split.
Qed.

(** C2 as stated fails.  A secure, handshook adaptor starts the internal
    one-byte read, the read completes with the byte ff, which is cached;
    [setSecure(false)] is called; the next [read_some], with a buffer of
    four bytes, goes to the raw socket, returns its two bytes, and the
    cached byte is neither in the caller's buffer nor cleared. *)
Lemma cached_byte_withheld_after_setSecure_false :
  let s := mkScripted [x01] ec_success [x0a; x0b] ec_success 0 0 ec_success in
  let a := test_adaptor s true true None 100 in
  exists a1 a2 a3 a4,
    async_read_some 7%nat a =
      Some (tt, a1,
            [ev_call Tls (op_async_read_some 1 (rh_smallBuffer 7%nat))]) /\
    invoke_read_handler (rh_smallBuffer 7%nat) ec_success [xff] a1 =
      Some (tt, a2, [ev_handler_n 7%nat ec_success 1]) /\
    d_smallBufferSet a2 = true /\
    d_smallBuffer a2 = xff /\
    setSecure false a2 = Some (tt, a3, []) /\
    read_some [x00; x00; x00; x00] a3 =
      Some (([x0a; x0b; x00; x00], 2, ec_success), a4,
            [ev_call Raw (op_read_some 4)]) /\
    d_smallBufferSet a4 = true /\
    x0a <> xff.
Proof.
  eexists _, _, _, _.
  repeat (split; [reflexivity|]). discriminate.
Qed.

(** Two internal one-byte reads outstanding at once: the completion of the
    second stores its byte over the byte of the first, which no read
    delivers. *)
Example second_completion_overwrites_cached_byte :
  let a := test_adaptor quiet_stream true true None 100 in
  exists a1 a2 a3 a4 a5,
    async_read_some 7%nat a =
      Some (tt, a1,
            [ev_call Tls (op_async_read_some 1 (rh_smallBuffer 7%nat))]) /\
    async_read_some 8%nat a1 =
      Some (tt, a2,
            [ev_call Tls (op_async_read_some 1 (rh_smallBuffer 8%nat))]) /\
    invoke_read_handler (rh_smallBuffer 7%nat) ec_success [x01] a2 =
      Some (tt, a3, [ev_handler_n 7%nat ec_success 1]) /\
    d_smallBuffer a3 = x01 /\
    invoke_read_handler (rh_smallBuffer 8%nat) ec_success [x02] a3 =
      Some (tt, a4, [ev_handler_n 8%nat ec_success 1]) /\
    d_smallBuffer a4 = x02 /\
    read_some [x00; x00] a4 =
      Some (([x02; x00], 1, ec_success), a5,
            [ev_call Tls (op_read_some 1)]).
Proof.
  eexists _, _, _, _, _. repeat (split; [reflexivity|]). reflexivity.
Qed.

(** * Further vocabulary *)

(** ** Vocabulary of the further properties *)

Definition all_options : list OptionEvent :=
  [oe_set so_non_blocking; oe_set so_no_delay; oe_set so_keep_alive].

Definition option_at (n : nat) : SocketOption :=
  match n with
  | O => so_non_blocking
  | S O => so_no_delay
  | _ => so_keep_alive
  end.

Definition is_timer_event (e : Event) : bool :=
  match e with ev_timer _ _ => true | _ => false end.

Definition is_intercept_call (e : Event) : bool :=
  match e with ev_call Intercept _ => true | _ => false end.

(** The public member functions that test [d_intercept] and forward. *)
Definition forwarded (act : Action) : bool :=
  match act with
  | act_setReadRateLimit _ | act_setReadRateAlarm _ => false
  | act_read_completes _ _ _ | act_wait_completes _ _ => false
  | _ => true
  end.

(** The actions that can reach the timer: [async_read_some] and the
    closures the timer itself invokes. *)
Definition reaches_timer (act : Action) : bool :=
  match act with
  | act_async_read_some _ | act_wait_completes _ _ => true
  | _ => false
  end.

Definition is_handshake (act : Action) : bool :=
  match act with act_async_handshake _ _ => true | _ => false end.

(** The number of waits outstanding on [timer]. *)
Definition waits_on (timer : TimerId) (r : Reactor) : nat :=
  length (filter (on_timer_p timer) (r_waits r)).

(** What one recorded call does to that number. *)
Definition wait_effect (timer : TimerId) (n : nat) (e : Event) : nat :=
  match e with
  | ev_timer t' (t_async_wait _) => if Nat.eqb t' timer then S n else n
  | ev_timer t' _ => if Nat.eqb t' timer then O else n
  | _ => n
  end.

Section Loop.

Context {St Ic Dl : Type}.
Context {stream_ops : StreamType St}.
Context {intercept_ops : SocketIntercept Ic}.
Context {limit_ops : DataRateLimit Dl}.

(** The adaptor's timer reaches its expiry. *)
Definition world_expire (w : World St Ic Dl) : World St Ic Dl :=
  match w_self w with
  | None => w
  | Some a =>
      mkWorld (Some a) (reactor_expire (d_dataRateTimer a) (w_reactor w))
  end.

(** [n] times: the timer expires and the reactor invokes what is queued. *)
Fixpoint cycles (n : nat) (w : World St Ic Dl) : option (World St Ic Dl) :=
  match n with
  | O => Some w
  | S n =>
      match world_run (world_expire w) with
      | None => None
      | Some w' => cycles n w'
      end
  end.

Fixpoint ticks (n : nat) (a : Adaptor St Ic Dl) : Adaptor St Ic Dl :=
  match n with
  | O => a
  | S n => ticks n (ticked a)
  end.

End Loop.

(** ** A move after the timer expired *)

(** The world of [throttled_adaptor] with the refresh wait on its timer. *)
Definition refreshing_world : World ScriptedStream unit QuotaTracker :=
  mkWorld (Some throttled_adaptor)
    (mkReactor [(0%nat, wh_refresh)] [] []).

(** What the move constructor leaves of [throttled_adaptor]. *)
Definition moved_from_adaptor : TestAdaptor :=
  snd (fst (move_construct throttled_adaptor 1%nat)).

(** C9 fails on the code when the timer expires before the move.  The
    expiry queues the completion of the outstanding wait with success;
    [cancel] in the move constructor finds no wait left and aborts
    nothing.  The moved-from adaptor is alive, so the weak reference of
    the closure resolves.  The closure of a deferred read then runs
    [onTimer] on the moved-from adaptor and re-issues the read, which
    dereferences the null [d_socket]: the run fails.  The closure of the
    refresh loop runs [onTimer] on the moved-from adaptor: its fields
    change and a new wait is started on its timer. *)
Theorem move_after_expiry_runs_closures :
  d_socket moved_from_adaptor = None /\
  (let w := world_expire deferred_world in
   r_ready (w_reactor w) = [(wh_deferredRead 7%nat, ec_success)] /\
   exists dst w1,
     world_move_from 1%nat w = Some (dst, w1) /\
     w_self w1 = Some moved_from_adaptor /\
     r_ready (w_reactor w1) = [(wh_deferredRead 7%nat, ec_success)] /\
     invoke_wait_handler (wh_deferredRead 7%nat) ec_success (w_self w1) =
       None /\
     world_run w1 = None) /\
  (let w := world_expire refreshing_world in
   r_ready (w_reactor w) = [(wh_refresh, ec_success)] /\
   exists dst w1,
     world_move_from 1%nat w = Some (dst, w1) /\
     w_self w1 = Some moved_from_adaptor /\
     r_ready (w_reactor w1) = [(wh_refresh, ec_success)] /\
     world_run w1 =
       Some (mkWorld (Some (ticked moved_from_adaptor))
               (mkReactor [(0%nat, wh_refresh)] [] [])) /\
     ticked moved_from_adaptor <> moved_from_adaptor).
Proof.
  split; [reflexivity|]. split.
  - split; [reflexivity|]. eexists _, _.
    split; [reflexivity|]. repeat split.
  - split; [reflexivity|]. eexists _, _.
    split; [reflexivity|]. repeat split. discriminate.
Qed.

(** * Further properties *)

(** Unfolds every member function and closure in a hypothesis. *)
Ltac unfold_members H :=
  unfold invoke_read_handler, invoke_wait_handler, forget, setSecure,
    setReadRateLimit, setReadRateAlarm, remote_endpoint, local_endpoint,
    close, available, async_connect, async_handshake, async_shutdown,
    async_write_some, read_some, async_read_some, check_alarm,
    check_limit, start_read, onTimer in H.

(** Splits on every test the goal still branches on. *)
Ltac split_goal_tests :=
  repeat (cbn;
          match goal with
          | |- context [match ?c with _ => _ end] =>
              lazymatch c with
              | context [match _ with _ => _ end] => fail
              | _ => destruct c eqn:?
              end
          end).

Section FieldInvariants.

Context {St Ic Dl : Type}.
Context {stream_ops : StreamType St}.
Context {intercept_ops : SocketIntercept Ic}.
Context {limit_ops : DataRateLimit Dl}.
Context {option_ops : SocketOptions St}.
Context {intercept_option_ops : InterceptOptions Ic}.

Implicit Types a src : Adaptor St Ic Dl.

(** X3.  On a living adaptor no member function and no closure clears
    [d_handshook], and the only one that sets it is [async_handshake],
    called without interception object while [d_secured] is set;
    [setDefaultOptions] and the destructor leave the flag as it is (and
    [socket] changes no field).  The move constructor is the one
    exception: it hands the flag to the new adaptor and clears it on its
    source. *)
Theorem handshook_only_by_secured_handshake :
  (forall act a a' t,
     perform act a = Some (tt, a', t) ->
     (d_handshook a = true -> d_handshook a' = true) /\
     (d_handshook a = false -> d_handshook a' = true ->
        exists type handler,
          act = act_async_handshake type handler /\
          d_intercept a = None /\ d_secured a = true)) /\
  (forall a ec a' t,
     setDefaultOptions a = Some (ec, a', t) ->
     d_handshook a' = d_handshook a) /\
  (forall a, exists t, destroy a = Some (tt, a, t)) /\
  (forall src timer,
     exists dst src' t,
       move_construct src timer = (dst, src', t) /\
       d_handshook dst = d_handshook src /\
       d_handshook src' = false).
Proof.
  split; [|split; [|split]].
  - intros act a a' t Hrun.
    destruct act; cbn [perform] in Hrun; try destruct k;
      unfold_members Hrun; run_on a; split_tests Hrun;
      try discriminate; inversion Hrun; subst; cbn;
      (split; [intros; assumption || reflexivity|]);
      intros Hoff Hon; try congruence.
    eexists _, _. repeat split.
  - intros a ec a' t Hrun.
    apply (setDefaultOptions_keeps a ec a' t Hrun).
  - intros a. eexists. apply destroy_run.
  - intros src timer. eexists _, _, _.
    split; [apply move_construct_run|]. split; reflexivity.
Qed.

(** X12.  On a living adaptor whose [d_socket] is not null, no member
    function and no closure dereferences a null pointer or resets
    [d_socket]: every call returns with [d_socket] still set,
    [setDefaultOptions] included; [socket] returns the stream and the
    destructor changes no field.  The move constructor is the one
    exception: it hands the socket to the new adaptor and leaves its
    source with [d_socket] null. *)
Theorem socket_stays_usable :
  (forall act a s,
     d_socket a = Some s ->
     exists a' t s',
       perform act a = Some (tt, a', t) /\ d_socket a' = Some s') /\
  (forall a s,
     d_socket a = Some s ->
     exists ec a' t s',
       setDefaultOptions a = Some (ec, a', t) /\ d_socket a' = Some s') /\
  (forall a s,
     d_socket a = Some s ->
     socket a = Some s /\
     destroy a = Some (tt, a, [ev_timer (d_dataRateTimer a) t_cancel])) /\
  (forall src timer,
     exists dst src' t,
       move_construct src timer = (dst, src', t) /\
       d_socket dst = d_socket src /\
       d_socket src' = None).
Proof.
  split; [|split; [|split]].
  - intros act a s Hs.
    destruct act; cbn [perform]; try destruct k;
      unfold invoke_read_handler, invoke_wait_handler, forget, setSecure,
        setReadRateLimit, setReadRateAlarm, remote_endpoint, local_endpoint,
        close, available, async_connect, async_handshake, async_shutdown,
        async_write_some, read_some, async_read_some, check_alarm,
        check_limit, start_read, onTimer;
      run_on a; split_goal_tests;
      eexists _, _, _; split; reflexivity.
  - intros a s Hs.
    destruct (setDefaultOptions_returns a (or_intror (ex_intro _ s Hs)))
      as (ec & a' & t & Hrun).
    destruct (setDefaultOptions_fields a ec a' t Hrun)
      as [(i & i' & _ & Ha' & _)|(s0 & s' & _ & _ & Ha' & _)].
    + exists ec, a', t, s. split; [exact Hrun|]. subst a'. exact Hs.
    + exists ec, a', t, s'. split; [exact Hrun|]. subst a'. reflexivity.
  - intros a s Hs. unfold socket. rewrite Hs. split; reflexivity.
  - intros src timer. eexists _, _, _.
    split; [apply move_construct_run|]. split; reflexivity.
Qed.

(** X13.  Of the member functions and closures, only [async_read_some]
    and the closures the timer invokes start waits on the timer, set its
    expiry, or change [d_alarmed] and [d_dataRateTimerStarted]: every
    other member function, [read_some] and [setDefaultOptions] among them,
    makes no call on the timer, whatever the quotas are.  The destructor
    and the move constructor each make one call on a timer, a [cancel]
    (the move constructor on the timer of its source), and leave both
    flags of the object they cancel on as they were; the new adaptor
    starts on its own timer with both flags clear. *)
Theorem timer_reached_only_by_async_reads :
  (forall act a a' t,
     reaches_timer act = false ->
     perform act a = Some (tt, a', t) ->
     existsb is_timer_event t = false /\
     d_dataRateTimerStarted a' = d_dataRateTimerStarted a /\
     d_alarmed a' = d_alarmed a) /\
  (forall a ec a' t,
     setDefaultOptions a = Some (ec, a', t) ->
     d_dataRateTimer a' = d_dataRateTimer a /\
     d_dataRateTimerStarted a' = d_dataRateTimerStarted a /\
     d_alarmed a' = d_alarmed a) /\
  (forall a,
     destroy a = Some (tt, a, [ev_timer (d_dataRateTimer a) t_cancel])) /\
  (forall src timer,
     exists dst src',
       move_construct src timer =
         (dst, src', [ev_timer (d_dataRateTimer src) t_cancel]) /\
       d_dataRateTimer dst = timer /\
       d_dataRateTimerStarted dst = false /\
       d_alarmed dst = false /\
       d_dataRateTimer src' = d_dataRateTimer src /\
       d_dataRateTimerStarted src' = d_dataRateTimerStarted src /\
       d_alarmed src' = d_alarmed src).
Proof.
  split; [|split; [|split]].
  - intros act a a' t Hact Hrun.
    destruct act; cbn [perform reaches_timer] in *; try discriminate;
      try destruct k;
      unfold_members Hrun; run_on a; split_tests Hrun;
      try discriminate; inversion Hrun; subst; repeat split.
  - intros a ec a' t Hrun.
    destruct (setDefaultOptions_keeps a ec a' t Hrun)
      as (_ & _ & _ & _ & _ & _ & Htimer & Halarmed & Hstarted & _).
    repeat split; assumption.
  - intros a. apply destroy_run.
  - intros src timer. eexists _, _.
    split; [apply move_construct_run|]. repeat split.
Qed.

(** X1.  With an interception object installed, every member function
    that tests [d_intercept] makes exactly one call, on the interception
    object, and none on socket or timer; it returns even though [d_socket]
    may be null, and it changes no field of the adaptor beside the
    interception object's own state: [setSecure] does not touch
    [d_secured], [async_handshake] does not touch [d_handshook]. *)
Theorem intercept_takes_every_call act a i :
  d_intercept a = Some i ->
  forwarded act = true ->
  exists i' op,
    perform act a =
      Some (tt, set_intercept a (Some i'), [ev_call Intercept op]).
Proof.
  intros Hi Hact.
  destruct act; cbn [perform forwarded] in *; try discriminate;
    unfold forget, setSecure, remote_endpoint, local_endpoint,
      close, available, async_connect, async_handshake, async_shutdown,
      async_write_some, read_some, async_read_some;
    run_on a; eexists _, _; reflexivity.
Qed.

End FieldInvariants.

Section ClearUntilHandshake.

Context {St Ic Dl : Type}.
Context {stream_ops : StreamType St}.
Context {intercept_ops : SocketIntercept Ic}.
Context {limit_ops : DataRateLimit Dl}.

Implicit Types a : Adaptor St Ic Dl.

(** An adaptor with a socket, no interception object, and no handshake
    issued so far. *)
Definition before_handshake a : Prop :=
  d_intercept a = None /\ (exists s, d_socket a = Some s) /\
  d_handshook a = false.

Lemma before_handshake_kept act a a' t :
  is_handshake act = false ->
  before_handshake a ->
  perform act a = Some (tt, a', t) ->
  before_handshake a'.
Proof.
  intros Hact (Hi & (s & Hs) & Hh) Hrun. unfold before_handshake.
  destruct act; cbn [perform is_handshake] in *; try discriminate;
    try destruct k;
    unfold_members Hrun; run_on a; split_tests Hrun;
    try discriminate; inversion Hrun; subst; cbn;
    repeat split; eauto.
Qed.

Lemma before_handshake_kept_all acts : forall a a' t,
  forallb (fun act => negb (is_handshake act)) acts = true ->
  before_handshake a ->
  perform_all acts a = Some (tt, a', t) ->
  before_handshake a'.
Proof.
  induction acts as [|act acts IH]; intros a a' t Hacts Hinv Hrun.
  - cbn in Hrun. inversion Hrun; subst. exact Hinv.
  - cbn [forallb] in Hacts. apply andb_prop in Hacts.
    destruct Hacts as [Hact Hrest].
    apply negb_true_iff in Hact.
    cbn [perform_all] in Hrun. unfold bind in Hrun.
    destruct (perform act a) as [[[[] a1] t1]|] eqn:Hfirst; [|discriminate].
    destruct (perform_all acts a1) as [[[[] a2] t2]|] eqn:Hlater;
      [|discriminate].
    inversion Hrun; subst.
    apply (IH a1 a' t2 Hrest); [|exact Hlater].
    apply (before_handshake_kept act a a1 t1 Hact Hinv Hfirst).
Qed.

Lemma async_write_some_run a s buffers handler :
  d_intercept a = None ->
  d_socket a = Some s ->
  async_write_some buffers handler a =
    Some (tt, a,
          [ev_call (if isSecure a then Tls else Raw)
             (op_async_write_some buffers handler)]).
Proof.
  intros Hi Hs. unfold async_write_some. run_member. rewrite Hi.
  destruct (isSecure a); rewrite Hs, (set_socket_same a s Hs); reflexivity.
Qed.

(** X4.  A newly constructed adaptor, secured or not, writes to the raw
    socket, and keeps doing so after any member functions and completions
    other than [async_handshake]; once [async_handshake] has been called on
    it with [d_secured] set, the same write goes to the TLS stream. *)
Theorem writes_in_clear_until_handshake
    (socket : St) (secured : bool) (timer : TimerId) (unlimited : Dl)
    acts a t buffers handler :
  forallb (fun act => negb (is_handshake act)) acts = true ->
  perform_all acts (construct socket secured timer unlimited) =
    Some (tt, a, t) ->
  async_write_some buffers handler a =
    Some (tt, a, [ev_call Raw (op_async_write_some buffers handler)]) /\
  (d_secured a = true ->
   forall type handshaken,
     exists a2,
       async_handshake type handshaken a =
         Some (tt, a2, [ev_call Tls (op_async_handshake type handshaken)]) /\
       async_write_some buffers handler a2 =
         Some (tt, a2, [ev_call Tls (op_async_write_some buffers handler)])).
Proof.
  intros Hacts Hrun.
  assert (Hnew : before_handshake (construct socket secured timer unlimited))
    by (unfold before_handshake, construct; cbn; repeat split; eauto).
  destruct (before_handshake_kept_all acts _ a t Hacts Hnew Hrun)
    as (Hi & (s & Hs) & Hh).
  split.
  - rewrite (async_write_some_run a s buffers handler Hi Hs).
    unfold isSecure. rewrite Hh, andb_false_r. reflexivity.
  - intros Hsec type handshaken.
    rewrite (async_handshake_run a s type handshaken Hi Hs), Hsec.
    eexists. split; [reflexivity|].
    rewrite (async_write_some_run (set_handshook a true) s buffers handler
               Hi Hs).
    unfold isSecure. cbn [d_secured d_handshook set_handshook].
    rewrite Hsec. reflexivity.
Qed.

End ClearUntilHandshake.

Lemma filter_filter_out (timer t' : TimerId)
    (waits : list (TimerId * WaitHandler)) :
  filter (on_timer_p timer)
    (filter (fun c => negb (on_timer_p t' c)) waits) =
  if Nat.eqb t' timer then [] else filter (on_timer_p timer) waits.
Proof.
  unfold on_timer_p.
  induction waits as [|c waits IH];
    [destruct (Nat.eqb t' timer); reflexivity|].
  cbn [filter].
  destruct (Nat.eqb (fst c) t') eqn:Ec; cbn [negb filter];
    destruct (Nat.eqb (fst c) timer) eqn:Ec'; rewrite IH;
    destruct (Nat.eqb t' timer) eqn:Et; try reflexivity;
    apply Nat.eqb_eq in Ec || apply Nat.eqb_neq in Ec;
    apply Nat.eqb_eq in Ec' || apply Nat.eqb_neq in Ec';
    apply Nat.eqb_eq in Et || apply Nat.eqb_neq in Et; congruence.
Qed.

Lemma waits_on_step timer r e :
  waits_on timer (reactor_step r e) = wait_effect timer (waits_on timer r) e.
Proof.
  unfold waits_on.
  destruct e as [| t' op | | |]; try reflexivity.
  destruct op; cbn [reactor_step complete_waits r_waits wait_effect];
    try (rewrite filter_filter_out; destruct (Nat.eqb t' timer); reflexivity).
  rewrite filter_app, length_app. cbn [filter on_timer_p fst].
  unfold on_timer_p at 2. cbn [fst].
  destruct (Nat.eqb t' timer); cbn [length]; lia.
Qed.

Lemma waits_on_steps timer t : forall r,
  waits_on timer (reactor_steps r t) =
    fold_left (wait_effect timer) t (waits_on timer r).
Proof.
  unfold reactor_steps.
  induction t as [|e t IH]; intros r; [reflexivity|].
  cbn [fold_left]. rewrite IH, waits_on_step. reflexivity.
Qed.

Section TimerLoop.

Context {St Ic Dl : Type}.
Context {stream_ops : StreamType St}.
Context {intercept_ops : SocketIntercept Ic}.
Context {limit_ops : DataRateLimit Dl}.

Implicit Types a : Adaptor St Ic Dl.

(** X5.  The adaptor never stacks waits on its timer: whenever a member
    function or closure starts a wait, it has cancelled the timer or set
    its expiry just before, so that an adaptor with at most one wait
    outstanding on its timer still has at most one afterwards.  No member
    function changes which timer the adaptor uses. *)
Theorem at_most_one_wait_outstanding act a a' t r :
  perform act a = Some (tt, a', t) ->
  (waits_on (d_dataRateTimer a) r <= 1)%nat ->
  (waits_on (d_dataRateTimer a) (reactor_steps r t) <= 1)%nat /\
  d_dataRateTimer a' = d_dataRateTimer a.
Proof.
  intros Hrun Hone. rewrite waits_on_steps.
  destruct act; cbn [perform] in Hrun; try destruct k;
    unfold_members Hrun; run_on a; split_tests Hrun;
    try discriminate; inversion Hrun; subst;
    (split; [|reflexivity]);
    cbn [fold_left wait_effect app];
    rewrite ?Nat.eqb_refl; exact Hone || lia.
Qed.

Lemma ticked_timer a : d_dataRateTimer (ticked a) = d_dataRateTimer a.
Proof. reflexivity. Qed.

(** X6.  Once the refresh loop runs, it keeps running for as long as the
    adaptor lives and no read is deferred: with the refresh wait as the one
    wait on the timer, each expiry makes one tick (both trackers get their
    [onTimer], [d_alarmed] is cleared), invokes no handler, makes no call
    on the socket, and leaves the refresh wait as the one wait on the timer
    again. *)
Theorem refresh_loop_keeps_running n : forall a r,
  r_waits r = [(d_dataRateTimer a, wh_refresh)] ->
  r_ready r = [] ->
  cycles n (mkWorld (Some a) r) = Some (mkWorld (Some (ticks n a)) r) /\
  d_dataRateLimit (ticks n a) = Nat.iter n limit_onTimer (d_dataRateLimit a) /\
  d_dataRateAlarm (ticks n a) = Nat.iter n limit_onTimer (d_dataRateAlarm a) /\
  (n <> O -> d_alarmed (ticks n a) = false /\
             d_dataRateTimerStarted (ticks n a) = true).
Proof.
  induction n as [|n IH]; intros a [waits ready seen] Hwaits Hready;
    cbn [r_waits r_ready] in *; subst waits ready.
  - repeat (split; [reflexivity|]). intros Hn. contradiction.
  - destruct (IH (ticked a) (mkReactor [(d_dataRateTimer a, wh_refresh)]
                               [] seen) eq_refl eq_refl)
      as (Hcycles & Hlimit & Halarm & Hflags).
    cbn [cycles world_expire w_self w_reactor ticks].
    unfold world_run, reactor_expire, complete_waits.
    cbn [w_self w_reactor r_waits r_ready r_seen filter on_timer_p fst].
    unfold on_timer_p. cbn [fst]. rewrite Nat.eqb_refl.
    cbn [negb filter map app snd invoke_all invoke_wait_handler].
    rewrite onTimer_success_run.
    cbn [tick_trace reactor_steps fold_left reactor_step complete_waits
           r_waits r_ready r_seen filter map app invoke_all].
    split; [exact Hcycles|].
    rewrite Hlimit, Halarm.
    split; [|split].
    + rewrite Nat.iter_succ_r. reflexivity.
    + rewrite Nat.iter_succ_r. reflexivity.
    + intros _. destruct n as [|n]; [split; reflexivity|].
      apply Hflags. discriminate.
Qed.

End TimerLoop.

Lemma store_keeps_length (data buffers : list byte) :
  (length data <= length buffers)%nat ->
  length (store data buffers) = length buffers.
Proof.
  intros Hle. unfold store. rewrite length_app, length_skipn. lia.
Qed.

Lemma store_keeps_rest (data buffers : list byte) :
  skipn (length data) (store data buffers) = skipn (length data) buffers.
Proof.
  unfold store. rewrite skipn_app, Nat.sub_diag, skipn_all. reflexivity.
Qed.

Section Reads.

Context {St Ic Dl : Type}.
Context {stream_ops : StreamType St}.
Context {intercept_ops : SocketIntercept Ic}.
Context {limit_ops : DataRateLimit Dl}.

Implicit Types a : Adaptor St Ic Dl.

(** The insecure branch of [read_some], lines 359-365. *)
Lemma read_some_raw_run a s buffers :
  d_intercept a = None ->
  d_socket a = Some s ->
  isSecure a = false ->
  let raw := raw_read_some s (length buffers) in
  read_some buffers a =
    Some ((store (fst (snd raw)) buffers,
           Z.of_nat (length (fst (snd raw))), snd (snd raw)),
          recorded (Z.of_nat (length (fst (snd raw))))
            (set_socket a (Some (fst raw))),
          [ev_call Raw (op_read_some (length buffers))]).
Proof.
  intros Hi Hs Hsec raw.
  unfold read_some. run_member. rewrite Hi, Hsec, Hs.
  fold raw. destruct raw as [s' [data ec]]. reflexivity.
Qed.

(** X7.  [read_some] without interception object stays inside the
    caller's buffer on every path: the buffer keeps its size, the returned
    count is between 0 and that size, and the call is one synchronous read
    on one layer, with no call on the timer even when the quotas are
    exhausted. *)
Theorem read_some_stays_in_buffer a s buffers :
  d_intercept a = None ->
  d_socket a = Some s ->
  Z.of_nat (length buffers) < SIZE_MODULUS ->
  exists buffers' result ec a' layer size,
    read_some buffers a =
      Some ((buffers', result, ec), a', [ev_call layer (op_read_some size)])
    /\ length buffers' = length buffers
    /\ 0 <= result <= Z.of_nat (length buffers)
    /\ (size <= length buffers)%nat.
Proof.
  intros Hi Hs Hfit.
  destruct (isSecure a) eqn:Hsec;
    [destruct (d_smallBufferSet a && (1 <=? length buffers)%nat) eqn:Hc|].
  - apply andb_prop in Hc. destruct Hc as [Hset Hlen].
    apply Nat.leb_le in Hlen.
    pose proof (read_some_cached_run a s buffers Hi Hs Hsec Hset Hlen Hfit)
      as Hrun.
    pose proof (tls_read_some_bound s (length buffers - 1)) as Hbound.
    cbn zeta in Hrun.
    eexists _, _, _, _, _, _. split; [exact Hrun|].
    assert (Htl : length (tl buffers) = (length buffers - 1)%nat)
      by (destruct buffers; cbn; lia).
    split; [|split; [|lia]].
    + cbn [length]. rewrite store_keeps_length by lia. lia.
    + destruct (ec_is_error _ && _); lia.
  - pose proof (read_some_tls_direct_run a s buffers Hi Hs Hsec Hc) as Hrun.
    pose proof (tls_read_some_bound s (length buffers)) as Hbound.
    cbn zeta in Hrun.
    eexists _, _, _, _, _, _. split; [exact Hrun|].
    split; [|split; [|lia]].
    + apply store_keeps_length. exact Hbound.
    + lia.
  - pose proof (read_some_raw_run a s buffers Hi Hs Hsec) as Hrun.
    pose proof (raw_read_some_bound s (length buffers)) as Hbound.
    cbn zeta in Hrun.
    eexists _, _, _, _, _, _. split; [exact Hrun|].
    split; [|split; [|lia]].
    + apply store_keeps_length. exact Hbound.
    + lia.
Qed.

(** X14.  [read_some] on an adaptor that is not [isSecure()] is the raw
    socket's [read_some]: the bytes read are at the front of the buffer and
    the rest of the buffer is as it was, the count and the error code are
    the socket's own (no error is replaced by success), the count is
    recorded on both trackers, also when it is 0, and a byte cached earlier
    stays cached. *)
Theorem read_some_raw_is_transparent a s buffers :
  d_intercept a = None ->
  d_socket a = Some s ->
  isSecure a = false ->
  let raw := raw_read_some s (length buffers) in
  let data := fst (snd raw) in
  exists buffers' a',
    read_some buffers a =
      Some ((buffers', Z.of_nat (length data), snd (snd raw)), a',
            [ev_call Raw (op_read_some (length buffers))]) /\
    firstn (length data) buffers' = data /\
    skipn (length data) buffers' = skipn (length data) buffers /\
    usage_recorded (Z.of_nat (length data)) a a' /\
    d_smallBufferSet a' = d_smallBufferSet a /\
    d_smallBuffer a' = d_smallBuffer a.
Proof.
  intros Hi Hs Hsec raw data.
  pose proof (read_some_raw_run a s buffers Hi Hs Hsec) as Hrun.
  cbn zeta in Hrun. fold raw in Hrun. fold data in Hrun.
  eexists _, _. split; [exact Hrun|].
  split; [apply store_prefix|]. split; [apply store_keeps_rest|].
  repeat split.
Qed.

(** The secured branch of [available], lines 231-234. *)
Lemma available_secured_run a s ec0 :
  d_intercept a = None ->
  d_socket a = Some s ->
  d_secured a = true ->
  available ec0 a =
    Some ((to_size_t (int_add (if d_smallBufferSet a then 1 else 0)
                        (tls_SSL_pending s)), ec0),
          a, [ev_call Tls op_SSL_pending]).
Proof.
  intros Hi Hs Hsec. unfold available. run_member.
  rewrite Hi, Hsec, Hs, (set_socket_same a s Hs). reflexivity.
Qed.

(** X8.  On an adaptor with [d_secured] set, [available] counts the cached
    workaround byte: it answers [SSL_pending] when no byte is cached and one
    more when one is ([SSL_pending] being an [int] below INT_MAX), makes
    no call on the raw socket, and leaves the caller's error code as it
    found it.  So the completion of the internal
    one-byte read raises the answer by exactly one. *)
Theorem available_counts_cached_byte a s ec0 handler ec b :
  d_intercept a = None ->
  d_socket a = Some s ->
  d_secured a = true ->
  d_smallBufferSet a = false ->
  0 <= tls_SSL_pending s < 2147483647 ->
  available ec0 a =
    Some ((tls_SSL_pending s, ec0), a, [ev_call Tls op_SSL_pending]) /\
  exists a2,
    invoke_read_handler (rh_smallBuffer handler) ec [b] a =
      Some (tt, a2, [ev_handler_n handler ec 1]) /\
    available ec0 a2 =
      Some ((1 + tls_SSL_pending s, ec0), a2, [ev_call Tls op_SSL_pending]).
Proof.
  intros Hi Hs Hsec Hset Hrange.
  assert (Hint : 2147483647 < SIZE_MODULUS) by reflexivity.
  assert (Hmod : forall x y, 0 <= x + y <= 2147483647 ->
                 to_size_t (int_add x y) = x + y).
  { intros x y Hz. unfold int_add, to_int.
    change (2 ^ 31) with 2147483648. change (2 ^ 32) with 4294967296.
    rewrite (Z.mod_small (x + y + 2147483648)) by lia.
    unfold to_size_t. rewrite Z.mod_small by lia. lia. }
  split.
  - rewrite (available_secured_run a s ec0 Hi Hs Hsec), Hset.
    rewrite Hmod by lia. reflexivity.
  - exists (set_smallBufferSet (set_smallBuffer a b) true).
    split; [reflexivity|].
    rewrite (available_secured_run
               (set_smallBufferSet (set_smallBuffer a b) true) s ec0
               Hi Hs Hsec).
    cbn [d_smallBufferSet set_smallBufferSet].
    rewrite Hmod by lia. reflexivity.
Qed.

End Reads.

Section MoveAndGates.

Context {St Ic Dl : Type}.
Context {stream_ops : StreamType St}.
Context {intercept_ops : SocketIntercept Ic}.
Context {limit_ops : DataRateLimit Dl}.

Implicit Types a src : Adaptor St Ic Dl.

(** X9.  Move construction hands the connection over whole: the new
    adaptor has the source's socket, flags, trackers (usage included) and
    cached workaround byte, so a byte cached in the source is delivered by
    the new adaptor; its refresh loop is not running and its alarm flag is
    clear.  The source is left without socket, not secured and without
    cached byte, and its timer is cancelled.  On the source, when it had no
    interception object, every member function that needs the socket
    dereferences a null pointer, while [async_handshake] invokes its
    handler with success without touching anything. *)
Theorem move_construct_hands_over src timer :
  exists dst src',
    move_construct src timer =
      (dst, src', [ev_timer (d_dataRateTimer src) t_cancel]) /\
    d_socket dst = d_socket src /\
    d_secured dst = d_secured src /\
    d_handshook dst = d_handshook src /\
    d_dataRateLimit dst = d_dataRateLimit src /\
    d_dataRateAlarm dst = d_dataRateAlarm src /\
    (forall b, holds_byte b src -> holds_byte b dst) /\
    d_dataRateTimer dst = timer /\
    d_dataRateTimerStarted dst = false /\
    d_alarmed dst = false /\
    d_socket src' = None /\
    isSecure src' = false /\
    d_smallBufferSet src' = false /\
    (d_intercept src = None ->
       (forall buffers, read_some buffers src' = None) /\
       (forall buffers handler,
          async_write_some buffers handler src' = None) /\
       (forall ec, available ec src' = None) /\
       close src' = None /\
       remote_endpoint src' = None /\
       local_endpoint src' = None /\
       (forall handler, async_shutdown handler src' = None) /\
       (forall peer handler, async_connect peer handler src' = None) /\
       (forall type handler,
          async_handshake type handler src' =
            Some (tt, src', [ev_handler handler ec_success]))).
Proof.
  eexists _, _. split; [reflexivity|].
  repeat (split; [reflexivity|]).
  split; [intros b Hheld; exact Hheld|].
  repeat (split; [reflexivity|]).
  intros Hi.
  repeat split; intros;
    unfold read_some, async_write_some, available, close, remote_endpoint,
      local_endpoint, async_shutdown, async_connect, async_handshake,
      isSecure;
    run_member;
    cbn [d_intercept d_socket d_secured d_handshook set_smallBufferSet
           set_smallBuffer set_handshook set_secured set_socket andb];
    rewrite Hi; reflexivity.
Qed.

Lemma onTimer_run a error :
  error <> operation_aborted ->
  onTimer error a = Some (tt, ticked a, tick_trace a).
Proof.
  intros Hne. unfold onTimer.
  rewrite (proj2 (Z.eqb_neq _ _) Hne). reflexivity.
Qed.

Lemma read_trace_shape a handler :
  existsb is_read_start (read_trace a handler) = true /\
  existsb is_deferral (read_trace a handler) = false /\
  existsb is_alarm_log (read_trace a handler) = false /\
  filter is_alarm_log (read_trace a handler) = [].
Proof.
  unfold read_trace.
  destruct (isSecure a); [destruct (d_smallBufferSet a)|]; repeat split.
Qed.

(** X10.  The alarm is debounced: one call of [async_read_some] logs the alarm at most once, logs none
    while [d_alarmed] is set, and when it logs one, the refresh loop was
    running, the alarm tracker had no quota left, and [d_alarmed] is set on
    return. *)
Theorem alarm_is_debounced a s handler :
  d_intercept a = None ->
  d_socket a = Some s ->
  exists a' t,
    async_read_some handler a = Some (tt, a', t) /\
    (length (filter is_alarm_log t) <= 1)%nat /\
    (d_alarmed a = true -> existsb is_alarm_log t = false) /\
    (existsb is_alarm_log t = true ->
       d_alarmed a = false /\
       d_dataRateTimerStarted a = true /\
       remainingQuota (d_dataRateAlarm a) = 0 /\
       d_alarmed a' = true).
Proof.
  intros Hi Hs.
  pose proof (check_alarm_run a) as Hal.
  pose proof (async_read_some_run a s handler _ _ Hi Hs Hal) as Hrun.
  clear Hal.
  assert (Hshape : forall b : Adaptor St Ic Dl,
            filter is_alarm_log (read_trace b handler) = [] /\
            existsb is_alarm_log (read_trace b handler) = false).
  { intros b. destruct (read_trace_shape b handler) as (_ & _ & H1 & H2).
    split; assumption. }
  destruct (d_alarmed a) eqn:Ealarmed;
    destruct (remainingQuota (d_dataRateAlarm a) =? 0) eqn:Erem;
    destruct (d_dataRateTimerStarted a) eqn:Est;
    cbn [negb andb] in Hrun;
    cbn [ticked d_alarmed d_dataRateTimerStarted d_dataRateLimit
           set_dataRateTimerStarted set_alarmed set_dataRateAlarm
           set_dataRateLimit] in Hrun;
    rewrite ?Est in Hrun;
    match type of Hrun with
    | _ = (if ?c then _ else _) => destruct c
    end;
    eexists _, _; (split; [exact Hrun|]);
    rewrite ?existsb_app, ?filter_app, ?length_app;
    rewrite ?(proj1 (Hshape _)), ?(proj2 (Hshape _));
    cbn [app tick_trace deferral_trace filter existsb is_alarm_log orb
           length d_alarmed set_alarmed];
    (split; [lia|]);
    (split; [intros Hon; reflexivity || discriminate|]);
    intros Hlog; try discriminate;
    apply Z.eqb_eq in Erem; repeat split; assumption.
Qed.

(** X11.  When the timer completes the wait of a deferred read without
    abort on a living adaptor, the closure first makes the refresh tick and
    then calls [async_read_some] again: the read is started in that call
    exactly when the refreshed limit tracker has quota, and is left to the
    timer once more, with the handler still not invoked, exactly when it
    has none. *)
Theorem deferred_read_resumes_iff_quota a s handler error :
  d_intercept a = None ->
  d_socket a = Some s ->
  error <> operation_aborted ->
  exists a' t,
    invoke_wait_handler (wh_deferredRead handler) error (Some a) =
      Some (Some a', tick_trace a ++ t) /\
    d_dataRateLimit a' = limit_onTimer (d_dataRateLimit a) /\
    (remainingQuota (limit_onTimer (d_dataRateLimit a)) <> 0 ->
       existsb is_read_start t = true /\ existsb is_deferral t = false) /\
    (remainingQuota (limit_onTimer (d_dataRateLimit a)) = 0 ->
       existsb is_read_start t = false /\ existsb is_deferral t = true).
Proof.
  intros Hi Hs Hne.
  cbn [invoke_wait_handler]. rewrite (proj2 (Z.eqb_neq _ _) Hne).
  unfold bind at 1. rewrite (onTimer_run a error Hne).
  pose proof (check_alarm_run (ticked a)) as Hal.
  pose proof (async_read_some_run (ticked a) s handler _ _ Hi Hs Hal) as Hrun.
  clear Hal.
  assert (Hd1 : d_alarmed (ticked a) = false) by reflexivity.
  assert (Hd2 : d_dataRateTimerStarted (ticked a) = true) by reflexivity.
  assert (Hd3 : d_dataRateLimit (ticked a) =
                limit_onTimer (d_dataRateLimit a)) by reflexivity.
  assert (Hd4 : d_dataRateLimit (set_alarmed (ticked a) true) =
                limit_onTimer (d_dataRateLimit a)) by reflexivity.
  assert (Hd5 : d_dataRateTimerStarted (set_alarmed (ticked a) true) = true)
    by reflexivity.
  rewrite Hd1, Hd2 in Hrun. cbn [negb andb] in Hrun.
  destruct (remainingQuota (d_dataRateAlarm (ticked a)) =? 0);
    rewrite ?Hd3, ?Hd4, ?Hd5, ?Hd2 in Hrun;
    destruct (remainingQuota (limit_onTimer (d_dataRateLimit a)) =? 0)
      eqn:Elim;
    rewrite Hrun;
    eexists _, _; (split; [reflexivity|]); (split; [reflexivity|]);
    (apply Z.eqb_eq in Elim || apply Z.eqb_neq in Elim);
    (split; intros Hq; [|]); try contradiction;
    rewrite ?existsb_app;
    repeat match goal with
           | |- context [read_trace ?x handler] =>
               rewrite (proj1 (read_trace_shape x handler)),
                 (proj1 (proj2 (read_trace_shape x handler)))
           end;
    split; reflexivity.
Qed.

End MoveAndGates.

Section DefaultOptionsProperties.

Context {St Ic Dl : Type}.
Context {option_ops : SocketOptions St}.
Context {intercept_option_ops : InterceptOptions Ic}.

Implicit Types a : Adaptor St Ic Dl.

(** X2.  [setDefaultOptions] without interception object sets non-blocking
    mode, then no-delay on the socket as the first call left it, then
    keep-alive on the socket as the second call left it, whatever the
    security flags are.  It reports success exactly when the socket
    answered all three with success; otherwise it reports the answer of the
    first option the socket refused, leaves the socket as that call left
    it, has written one trace line about that option with that answer, and
    has not tried the options after it.  No field of the adaptor other than
    the socket changes. *)
Theorem setDefaultOptions_stops_at_first_failure a s :
  d_intercept a = None ->
  d_socket a = Some s ->
  let first := raw_set_option s so_non_blocking true in
  let second := raw_set_option (fst first) so_no_delay true in
  let third := raw_set_option (fst second) so_keep_alive true in
  exists ec s' t,
    setDefaultOptions a = Some (ec, set_socket a (Some s'), t) /\
    (ec_is_error ec = false <->
       ec_is_error (snd first) = false /\
       ec_is_error (snd second) = false /\
       ec_is_error (snd third) = false) /\
    (ec_is_error (snd first) = true ->
       ec = snd first /\ s' = fst first /\
       t = [oe_set so_non_blocking; oe_log_trace so_non_blocking (snd first)])
    /\
    (ec_is_error (snd first) = false ->
     ec_is_error (snd second) = true ->
       ec = snd second /\ s' = fst second /\
       t = [oe_set so_non_blocking; oe_set so_no_delay;
            oe_log_trace so_no_delay (snd second)]) /\
    (ec_is_error (snd first) = false ->
     ec_is_error (snd second) = false ->
       ec = snd third /\ s' = fst third /\
       t = all_options ++
           (if ec_is_error (snd third)
            then [oe_log_trace so_keep_alive (snd third)] else [])) /\
    (ec_is_error ec = false -> t = all_options) /\
    (ec_is_error ec = true ->
       exists n, (n < 3)%nat /\
         t = firstn (S n) all_options ++ [oe_log_trace (option_at n) ec]).
Proof.
  intros Hi Hs first second third.
  unfold setDefaultOptions. rewrite Hi, Hs.
  subst third second first.
  destruct (raw_set_option s so_non_blocking true) as [s1 ec1].
  cbn [fst snd].
  destruct (ec_is_error ec1) eqn:E1.
  { eexists _, _, _. split; [reflexivity|].
    split; [split; [congruence | intros (H & _); congruence]|].
    split; [intros _; repeat split|].
    split; [congruence|]. split; [congruence|]. split; [congruence|].
    intros _. exists 0%nat. split; [lia | reflexivity]. }
  destruct (raw_set_option s1 so_no_delay true) as [s2 ec2].
  cbn [fst snd].
  destruct (ec_is_error ec2) eqn:E2.
  { eexists _, _, _. split; [reflexivity|].
    split; [split; [congruence | intros (_ & H & _); congruence]|].
    split; [congruence|].
    split; [intros _ _; repeat split|].
    split; [congruence|]. split; [congruence|].
    intros _. exists 1%nat. split; [lia | reflexivity]. }
  destruct (raw_set_option s2 so_keep_alive true) as [s3 ec3].
  cbn [fst snd].
  destruct (ec_is_error ec3) eqn:E3.
  { eexists _, _, _. split; [reflexivity|].
    split; [split; [congruence | intros (_ & _ & H); congruence]|].
    split; [congruence|]. split; [congruence|].
    split; [intros _ _; repeat split|]. split; [congruence|].
    intros _. exists 2%nat. split; [lia | reflexivity]. }
  eexists _, _, _. split; [reflexivity|].
  split; [split; [intros _; repeat split; assumption | intros _; assumption]|].
  split; [congruence|]. split; [congruence|].
  split; [intros _ _; repeat split|]. split; [reflexivity|].
  congruence.
Qed.

End DefaultOptionsProperties.

(** ** The further properties on concrete adaptors *)

Lemma handshook_only_by_secured_handshake_witness :
  d_handshook (test_adaptor quiet_stream true true None 100) = true.
Proof.
  destruct (handshook_only_by_secured_handshake
              (St := ScriptedStream) (Ic := unit) (Dl := QuotaTracker))
    as (Hkept & _).
  exact (proj1 (Hkept (act_setSecure false)
                  (test_adaptor quiet_stream true true None 100)
                  (test_adaptor quiet_stream false true None 100) []
                  eq_refl) eq_refl).
Defined.

Lemma socket_stays_usable_witness :
  exists a' t s',
    perform (act_read_some [x00; x00]) throttled_adaptor = Some (tt, a', t) /\
    d_socket a' = Some s'.
Proof.
  destruct (socket_stays_usable
              (St := ScriptedStream) (Ic := unit) (Dl := QuotaTracker))
    as (Hcalls & _).
  exact (Hcalls (act_read_some [x00; x00]) throttled_adaptor quiet_stream
           eq_refl).
Defined.

Lemma timer_reached_only_by_async_reads_witness :
  existsb is_timer_event [ev_call Tls (op_read_some 2)] = false.
Proof.
  destruct (timer_reached_only_by_async_reads
              (St := ScriptedStream) (Ic := unit) (Dl := QuotaTracker))
    as (Hcalls & _).
  exact (proj1 (Hcalls (act_read_some [x00; x00]) throttled_adaptor
                  throttled_adaptor [ev_call Tls (op_read_some 2)]
                  eq_refl eq_refl)).
Defined.

(** An adaptor of the SOCKET_TESTING build. *)
Definition intercepted_adaptor : TestAdaptor :=
  construct_intercepted tt true 0%nat (mkQuotaTracker 100 0).

Lemma intercept_takes_every_call_witness :
  exists i' op,
    perform (act_async_handshake hs_client 7%nat) intercepted_adaptor =
      Some (tt, set_intercept intercepted_adaptor (Some i'),
            [ev_call Intercept op]).
Proof.
  exact (intercept_takes_every_call (act_async_handshake hs_client 7%nat)
           intercepted_adaptor tt eq_refl eq_refl).
Defined.

Lemma writes_in_clear_until_handshake_witness :
  let a := test_adaptor quiet_stream true false None 100 in
  async_write_some [x01] 7%nat a =
    Some (tt, a, [ev_call Raw (op_async_write_some [x01] 7%nat)]).
Proof.
  exact (proj1 (writes_in_clear_until_handshake
                  quiet_stream true 0%nat (mkQuotaTracker 100 0)
                  [act_setSecure true; act_available ec_success]
                  (test_adaptor quiet_stream true false None 100)
                  [ev_call Tls op_SSL_pending] [x01] 7%nat
                  eq_refl eq_refl)).
Defined.

Lemma at_most_one_wait_outstanding_witness :
  (waits_on 0%nat
     (reactor_steps (mkReactor [(0%nat, wh_refresh)] [] [])
        ([ev_log (log_info_alarm_hit 50%Z)] ++
         deferral_trace (set_alarmed throttled_adaptor true) 7%nat)) <= 1)%nat.
Proof.
  exact (proj1 (at_most_one_wait_outstanding
                  (act_async_read_some 7%nat) throttled_adaptor
                  (set_alarmed throttled_adaptor true) _
                  (mkReactor [(0%nat, wh_refresh)] [] [])
                  eq_refl (le_n 1))).
Defined.

Lemma refresh_loop_keeps_running_witness :
  cycles 3
    (mkWorld (Some throttled_adaptor)
       (mkReactor [(0%nat, wh_refresh)] [] [])) =
    Some (mkWorld (Some (ticks 3 throttled_adaptor))
            (mkReactor [(0%nat, wh_refresh)] [] [])).
Proof.
  exact (proj1 (refresh_loop_keeps_running 3 throttled_adaptor
                  (mkReactor [(0%nat, wh_refresh)] [] [])
                  eq_refl eq_refl)).
Defined.

Lemma read_some_stays_in_buffer_witness :
  exists buffers' result ec a' layer size,
    read_some [x00; x00; x00]
      (test_adaptor (mkScripted [x01; x02; x03; x04] 2 [] 0 0 0 0)
         true true (Some xff) 100) =
      Some ((buffers', result, ec), a', [ev_call layer (op_read_some size)])
    /\ length buffers' = 3%nat
    /\ 0 <= result <= 3
    /\ (size <= 3)%nat.
Proof.
  exact (read_some_stays_in_buffer
           (test_adaptor (mkScripted [x01; x02; x03; x04] 2 [] 0 0 0 0)
              true true (Some xff) 100)
           (mkScripted [x01; x02; x03; x04] 2 [] 0 0 0 0)
           [x00; x00; x00] eq_refl eq_refl eq_refl).
Defined.

Lemma read_some_raw_is_transparent_witness :
  exists buffers' a',
    read_some [x00; x00; x00]
      (test_adaptor (mkScripted [] 0 [] 104 0 0 0) true false (Some xff) 100)
    = Some ((buffers', 0, 104), a', [ev_call Raw (op_read_some 3)]) /\
    d_smallBufferSet a' = true.
Proof.
  destruct (read_some_raw_is_transparent
              (test_adaptor (mkScripted [] 0 [] 104 0 0 0)
                 true false (Some xff) 100)
              (mkScripted [] 0 [] 104 0 0 0) [x00; x00; x00]
              eq_refl eq_refl eq_refl)
    as (buffers' & a' & Hrun & _ & _ & _ & Hset & _).
  exists buffers', a'. split; [exact Hrun | exact Hset].
Defined.

Lemma available_counts_cached_byte_witness :
  let s := mkScripted [] 0 [] 0 7 0 0 in
  available 104 (test_adaptor s true true None 100) =
    Some ((7, 104), test_adaptor s true true None 100,
          [ev_call Tls op_SSL_pending]).
Proof.
  intros s.
  assert (Hrange : 0 <= tls_SSL_pending s < 2147483647) by (cbn; lia).
  exact (proj1 (available_counts_cached_byte
                  (test_adaptor s true true None 100) s 104 7%nat
                  ec_success xff eq_refl eq_refl eq_refl eq_refl Hrange)).
Defined.

(** The sum of line 232 is taken in [int]: with the byte cached and
    [SSL_pending] at [INT_MAX] it wraps to [INT_MIN], which the return
    converts to [size_t]. *)
Example available_wraps_at_int_max :
  let s := mkScripted [] 0 [] 0 2147483647 0 0 in
  available 0 (test_adaptor s true true (Some xff) 100) =
    Some ((18446744071562067968, 0), test_adaptor s true true (Some xff) 100,
          [ev_call Tls op_SSL_pending]).
Proof. reflexivity. Qed.



Section DeferralInTheLoop.

Context {St Ic Dl : Type}.
Context {stream_ops : StreamType St}.
Context {intercept_ops : SocketIntercept Ic}.
Context {limit_ops : DataRateLimit Dl}.

Implicit Types a : Adaptor St Ic Dl.




End DeferralInTheLoop.

(** Every action but the completions, which only the stream and the timer
    bring about. *)
Definition public_call (act : Action) : bool :=
  match act with
  | act_read_completes _ _ _ | act_wait_completes _ _ => false
  | _ => true
  end.

(** The calls of public member functions. *)
Definition is_public (c : Call) : bool :=
  match c with
  | call_action act => public_call act
  | call_setDefaultOptions => true
  end.

(** The calls on the interception object. *)
Definition goes_to_intercept (e : Event + OptionEvent) : bool :=
  match e with
  | inl e => is_intercept_call e
  | inr e => is_option_forward e
  end.

Section TestingBuild.

Context {St Ic Dl : Type}.
Context {stream_ops : StreamType St}.
Context {intercept_ops : SocketIntercept Ic}.
Context {limit_ops : DataRateLimit Dl}.
Context {option_ops : SocketOptions St}.
Context {intercept_option_ops : InterceptOptions Ic}.

Implicit Types a : Adaptor St Ic Dl.

(** An adaptor as the testing constructor makes it, up to the state of the
    interception object and the trackers' quotas. *)
Definition intercepted (secured : bool) a : Prop :=
  (exists i, d_intercept a = Some i) /\ d_socket a = None /\
  d_secured a = secured /\ d_handshook a = false /\
  d_smallBufferSet a = false /\ d_dataRateTimerStarted a = false.

Lemma intercepted_kept act secured a :
  public_call act = true ->
  intercepted secured a ->
  exists a' t,
    perform act a = Some (tt, a', t) /\
    intercepted secured a' /\
    forallb is_intercept_call t = true.
Proof.
  intros Hact ((i & Hi) & Hs & Hsec & Hh & Hset & Hst).
  unfold intercepted.
  destruct act; cbn [perform public_call] in *; try discriminate;
    unfold forget, setSecure, setReadRateLimit, setReadRateAlarm,
      remote_endpoint, local_endpoint, close, available, async_connect,
      async_handshake, async_shutdown, async_write_some, read_some,
      async_read_some;
    run_on a; eexists _, _; (split; [reflexivity|]);
    cbn; repeat split; eauto.
Qed.

(** The same for [setDefaultOptions]. *)
Lemma intercepted_kept_by_options secured a :
  intercepted secured a ->
  exists ec a',
    setDefaultOptions a = Some (ec, a', [oe_intercept]) /\
    intercepted secured a'.
Proof.
  intros ((i & Hi) & Hs & Hsec & Hh & Hset & Hst).
  unfold setDefaultOptions, intercepted. rewrite Hi.
  destruct (i_setDefaultOptions i) as [i' ec].
  eexists _, _. split; [reflexivity|]. cbn. repeat split; eauto.
Qed.

Lemma intercepted_kept_by_call c secured a :
  is_public c = true ->
  intercepted secured a ->
  exists a' t,
    call c a = Some (a', t) /\
    intercepted secured a' /\
    forallb goes_to_intercept t = true.
Proof.
  intros Hc Hinv. destruct c as [act|]; cbn [call is_public] in *.
  - destruct (intercepted_kept act secured a Hc Hinv)
      as (a' & t & Hrun & Hinv' & Ht).
    rewrite Hrun. exists a', (map inl t).
    split; [reflexivity|]. split; [exact Hinv'|].
    rewrite <- Ht. clear. induction t as [|e t IH]; [reflexivity|].
    cbn [map forallb goes_to_intercept]. rewrite IH. reflexivity.
  - destruct (intercepted_kept_by_options secured a Hinv)
      as (ec & a' & Hrun & Hinv').
    rewrite Hrun. exists a', [inr oe_intercept].
    split; [reflexivity|]. split; [exact Hinv' | reflexivity].
Qed.

(** X16.  An adaptor of the testing build does not reach for its null
    socket in any public member function but [socket]: whatever of
    [setSecure], [setDefaultOptions], the rate setters, the endpoint
    queries, [close], [available], the four asynchronous operations and
    [read_some] are called on it, in whatever order, every call returns,
    every call made on a collaborator is one on the interception object,
    the timer is not used, and [d_secured] and [d_handshook] stay as the
    constructor set them, [setSecure] and [async_handshake] included.
    [socket] does not test [d_intercept]: on such an adaptor, before and
    after those calls, it dereferences the null [d_socket]. *)
Theorem testing_build_never_touches_socket
    (intercept : Ic) (secured : bool) (timer : TimerId) (unlimited : Dl)
    calls :
  forallb is_public calls = true ->
  socket (@construct_intercepted St Ic Dl intercept secured timer unlimited)
    = None /\
  exists a' t,
    call_all calls (construct_intercepted intercept secured timer unlimited)
      = Some (a', t) /\
    forallb goes_to_intercept t = true /\
    d_socket a' = None /\
    socket a' = None /\
    d_secured a' = secured /\
    d_handshook a' = false.
Proof.
  intros Hcalls. split; [reflexivity|].
  assert (Hnew : intercepted secured
                   (@construct_intercepted St Ic Dl intercept secured timer
                      unlimited))
    by (unfold intercepted, construct_intercepted; cbn; repeat split; eauto).
  revert Hnew.
  generalize (@construct_intercepted St Ic Dl intercept secured timer
                unlimited).
  induction calls as [|c calls IH]; intros a Hinv.
  - exists a, []. destruct Hinv as (_ & Hs & Hsec & Hh & _).
    unfold socket. rewrite Hs. repeat split; assumption.
  - cbn [forallb] in Hcalls. apply andb_prop in Hcalls.
    destruct Hcalls as [Hc Hrest].
    destruct (intercepted_kept_by_call c secured a Hc Hinv)
      as (a1 & t1 & Hfirst & Hinv1 & Ht1).
    destruct (IH Hrest a1 Hinv1) as (a' & t & Hlater & Ht & Hfields).
    exists a', (t1 ++ t). cbn [call_all].
    rewrite Hfirst, Hlater. split; [reflexivity|].
    split; [rewrite forallb_app, Ht1, Ht; reflexivity | exact Hfields].
Qed.

End TestingBuild.

Lemma testing_build_never_touches_socket_witness :
  socket intercepted_adaptor = None /\
  exists a' t,
    call_all
      [call_action (act_setSecure false); call_setDefaultOptions;
       call_action (act_async_handshake hs_client 7%nat);
       call_action (act_read_some [x00]);
       call_action (act_async_read_some 8%nat)]
      intercepted_adaptor = Some (a', t) /\
    forallb goes_to_intercept t = true /\
    d_socket a' = None /\ socket a' = None /\
    d_secured a' = true /\ d_handshook a' = false.
Proof.
  exact (testing_build_never_touches_socket tt true 0%nat
           (mkQuotaTracker 100 0)
           [call_action (act_setSecure false); call_setDefaultOptions;
            call_action (act_async_handshake hs_client 7%nat);
            call_action (act_read_some [x00]);
            call_action (act_async_read_some 8%nat)] eq_refl).
Defined.

Lemma move_construct_hands_over_witness :
  let src := test_adaptor quiet_stream true true (Some xff) 100 in
  exists dst src',
    move_construct src 1%nat = (dst, src', [ev_timer 0%nat t_cancel]) /\
    holds_byte xff dst /\
    read_some [x00] src' = None.
Proof.
  intros src.
  destruct (move_construct_hands_over src 1%nat)
    as (dst & src' & Hmove & _ & _ & _ & _ & _ & Hbyte & _ & _ & _ & _ & _
        & _ & Hnull).
  exists dst, src'. split; [exact Hmove|]. split.
  - apply Hbyte. unfold holds_byte. cbn. repeat split; eauto.
  - destruct (Hnull eq_refl) as [Hread _]. exact (Hread [x00]).
Defined.

Lemma alarm_is_debounced_witness :
  exists a' t,
    async_read_some 7%nat throttled_adaptor = Some (tt, a', t) /\
    (length (filter is_alarm_log t) <= 1)%nat /\
    d_alarmed a' = true.
Proof.
  destruct (alarm_is_debounced throttled_adaptor quiet_stream 7%nat
              eq_refl eq_refl)
    as (a' & t & Hrun & Honce & _ & Hraised).
  exists a', t. split; [exact Hrun|]. split; [exact Honce|].
  apply Hraised. inversion Hrun. reflexivity.
Defined.

Lemma deferred_read_resumes_iff_quota_witness :
  exists a' t,
    invoke_wait_handler (wh_deferredRead 7%nat) ec_success
      (Some throttled_adaptor) =
      Some (Some a', tick_trace throttled_adaptor ++ t) /\
    existsb is_read_start t = true.
Proof.
  assert (Hne : ec_success <> operation_aborted) by discriminate.
  destruct (deferred_read_resumes_iff_quota throttled_adaptor quiet_stream
              7%nat ec_success eq_refl eq_refl Hne)
    as (a' & t & Hrun & _ & Hquota & _).
  exists a', t. split; [exact Hrun|].
  apply Hquota. discriminate.
Defined.

Lemma setDefaultOptions_stops_at_first_failure_witness :
  let a : Adaptor OptionScript unit QuotaTracker :=
    construct (mkOptionScript 0 22 0) true 0%nat (mkQuotaTracker 100 0) in
  setDefaultOptions a =
    Some (22, a,
          [oe_set so_non_blocking; oe_set so_no_delay;
           oe_log_trace so_no_delay 22]).
Proof.
  intros a.
  destruct (setDefaultOptions_stops_at_first_failure a
              (mkOptionScript 0 22 0) eq_refl eq_refl)
    as (ec & s' & t & Hrun & _ & _ & Hsecond & _).
  destruct (Hsecond eq_refl eq_refl) as (Hec & Hs & Ht).
  rewrite Hrun, Hec, Hs, Ht. reflexivity.
Defined.

